(** * Screen-share capture and analysis pipeline

    A shallow embedding of the capture hook ([use-screen-capture.ts]) and of
    the two analysis routes ([api/analyze/batch/route.ts],
    [api/analyze/summarize/route.ts]), with the properties the specification
    states about them.

    Layout: [Js] holds the few JavaScript primitives the code relies on,
    [Summarize] the summarize route, [Capture] the hook, [Legacy] the
    summarizing helper of the stand-alone [ShareModal.tsx], [Batch] the batch
    route; the properties follow in [CaptureFacts] and [BatchFacts]. *)

From Stdlib Require Import ZArith String Ascii List Bool Lia.
From Stdlib Require Import HexadecimalString.
From stdpp Require Import base list strings pretty.

#[local] Set Warnings "-register-all".
Local Open Scope string_scope.
Local Open Scope list_scope.

(** ** JavaScript primitives *)

Module Js.

(** A value thrown and caught by [catch (error)]: the handlers only look at
    [error instanceof Error] and, if so, at [error.message]. *)
Inductive Thrown :=
  | ThrowError (message : string)
  | ThrowOther.

(** [error instanceof Error ? error.message : 'Unknown error'] *)
Definition message_or_unknown (e : Thrown) : string :=
  match e with
  | ThrowError m => m
  | ThrowOther => "Unknown error"
  end.

(** ToInt32: the signed 32-bit value the bit operators work on. *)
Definition to_int32 (z : Z) : Z := ((z + 2 ^ 31) mod 2 ^ 32 - 2 ^ 31)%Z.

(** [a << n] *)
Definition shl32 (a : Z) (n : Z) : Z := to_int32 (Z.shiftl (to_int32 a) n).

(** [a & b] *)
Definition and32 (a b : Z) : Z := Z.land (to_int32 a) (to_int32 b).

(** [str.charCodeAt(i)] for [i = 0 .. str.length - 1]; a data URL is ASCII,
    so code units are the bytes of the string. *)
Definition charCodes (str : string) : list Z :=
  map (fun c => Z.of_nat (nat_of_ascii c)) (list_ascii_of_string str).

(** [n.toString(16)]: lower-case digits, a leading [-] for negatives. *)
Definition toString16 (n : Z) : string :=
  NilZero.string_of_int (Z.to_hex_int n).

(** [x || dflt] on a string that may be [null]/[undefined]: the empty string
    is falsy too. *)
Definition or_default (x : option string) (dflt : string) : string :=
  match x with
  | Some s => if String.eqb s "" then dflt else s
  | None => dflt
  end.

(** [response.ok] *)
Definition status_ok (status : nat) : bool :=
  (200 <=? status)%nat && (status <=? 299)%nat.

End Js.

(** ** The summarize route, as the browser code reaches it *)

Module Summarize.
Import Js.

(** What the chat-completion call does: its text ([null] possible) or a
    throw. *)
Inductive ModelOutcome :=
  | Resolves (content : option string)
  | Rejects (e : Thrown).

(** What [fetch('/api/analyze/summarize')] comes back with: a rejected fetch,
    or a status and the [summary] field of the body. *)
Inductive SummarizeReply :=
  | FetchRejects (e : Thrown)
  | Reply (status : nat) (summary : option string).

(** The route on the bodies the browser code sends, [{ analyses }] with an
    array of strings: 400 for an empty array, else one model call over
    [analyses.join('\n\n')], answered with 200 and its text, or 500 if it
    throws. *)
Definition POST (model : list string -> ModelOutcome) (analyses : list string)
    : SummarizeReply :=
  match analyses with
  | [] => Reply 400 None
  | _ =>
    match model analyses with
    | Resolves content => Reply 200 content
    | Rejects _ => Reply 500 None
    end
  end.

End Summarize.

(** ** The capture hook *)

Module Capture.
Import Js.
Import Summarize.

(** [simpleHash]: the loop body, then the loop and the final [toString(16)]. *)
Definition hash_step (hash char : Z) : Z :=
  let hash := (shl32 hash 5 - hash + char)%Z in
  and32 hash hash.

Definition simpleHash (str : string) : string :=
  toString16 (fold_left hash_step (charCodes str) 0%Z).

(** Which of the optional callbacks the component passed to the hook. *)
Record Props := {
  onFrameCapture : bool;
  onAnalysisComplete : bool
}.

(** The state values a render binds with [const [x, setX] = useState(..)].
    Closures created during that render (the interval callback, [stopCapture])
    read these bindings, whatever the setters do later. *)
Record Render := {
  r_captureCount : nat;
  r_captureRate : Z;
  r_analyses : list string
}.

(** The hook's mutable world: React state as the setters leave it, the refs,
    the period the capture interval was created with, and the calls made to
    the outside (callbacks and requests), oldest first. *)
Record Session := {
  captureCount : nat;
  captureRate : Z;
  isRecording : bool;
  frameBufferRef : list string;
  lastFrameHashRef : string;
  captureIntervalRef : option Z;
  frameCaptureCalls : list nat;
  batchRequests : list (list string);
  summarizeRequests : list (list string);
  analysisCompleteCalls : list string
}.

(** State at mount: [useState(0)], [useState(1000)], [useRef([])],
    [useRef('')], [useRef(null)]. *)
Definition mount : Session := {|
  captureCount := 0;
  captureRate := 1000;
  isRecording := false;
  frameBufferRef := [];
  lastFrameHashRef := "";
  captureIntervalRef := None;
  frameCaptureCalls := [];
  batchRequests := [];
  summarizeRequests := [];
  analysisCompleteCalls := []
|}.

Definition first_render : Render := {|
  r_captureCount := 0;
  r_captureRate := 1000;
  r_analyses := []
|}.

(** [processFrameBuffer]: hand the buffer to [analyzeScreenshots], which posts
    it to the batch route, and leave an empty buffer behind. *)
Definition processFrameBuffer (s : Session) : Session :=
  match frameBufferRef s with
  | [] => s
  | buffer => {|
      captureCount := captureCount s;
      captureRate := captureRate s;
      isRecording := isRecording s;
      frameBufferRef := [];
      lastFrameHashRef := lastFrameHashRef s;
      captureIntervalRef := captureIntervalRef s;
      frameCaptureCalls := frameCaptureCalls s;
      batchRequests := batchRequests s ++ [buffer];
      summarizeRequests := summarizeRequests s;
      analysisCompleteCalls := analysisCompleteCalls s
    |}
  end.

(** [startPeriodicCapture]: resets count, buffer and stored hash, then
    [setInterval(callback, captureRate)] with the render's [captureRate]. *)
Definition startPeriodicCapture (r : Render) (s : Session) : Session := {|
  captureCount := 0;
  captureRate := captureRate s;
  isRecording := true;
  frameBufferRef := [];
  lastFrameHashRef := "";
  captureIntervalRef := Some (r_captureRate r);
  frameCaptureCalls := frameCaptureCalls s;
  batchRequests := batchRequests s;
  summarizeRequests := summarizeRequests s;
  analysisCompleteCalls := analysisCompleteCalls s
|}.

(** The message [stopCapture] hands to [onAnalysisComplete]. *)
Definition no_frames_message : string :=
  "No frames were captured for analysis. Please try again and ensure your screen is shared for at least a few seconds.".

Definition stop_message (analyses : list string) (reply : SummarizeReply) : string :=
  match analyses with
  | [] => no_frames_message
  | _ =>
    match reply with
    | Reply status summary =>
      if status_ok status then or_default summary "No summary available"
      else "Failed to summarize analyses. Captured " +:+ pretty (length analyses) +:+ " frames."
    | FetchRejects _ =>
      "Failed to summarize analyses. Captured " +:+ pretty (length analyses) +:+ " frames."
    end
  end.

(** [stopCapture]: clear the interval, flush what is buffered, then summarize
    the [analyses] of the closure's render. *)
Definition stopCapture (p : Props) (r : Render) (reply : SummarizeReply)
    (s : Session) : Session :=
  let s := processFrameBuffer s in
  {|
    captureCount := captureCount s;
    captureRate := captureRate s;
    isRecording := false;
    frameBufferRef := frameBufferRef s;
    lastFrameHashRef := lastFrameHashRef s;
    captureIntervalRef := None;
    frameCaptureCalls := frameCaptureCalls s;
    batchRequests := batchRequests s;
    summarizeRequests :=
      match r_analyses r with
      | [] => summarizeRequests s
      | analyses => summarizeRequests s ++ [analyses]
      end;
    analysisCompleteCalls :=
      if onAnalysisComplete p
      then analysisCompleteCalls s ++ [stop_message (r_analyses r) reply]
      else analysisCompleteCalls s
  |}.

(** What one firing of the capture interval finds. *)
Inductive Shot :=
  | StreamInactive (reply : SummarizeReply)
  | NoScreenshot
  | Screenshot (data : string).

(** [lastFrameHashRef.current !== frameHash] *)
Definition isDifferent (s : Session) (frameHash : string) : bool :=
  negb (String.eqb (lastFrameHashRef s) frameHash).

(** The guard of the kept branch. *)
Definition keeps (s : Session) (frameHash : string) : bool :=
  isDifferent s frameHash || (length (frameBufferRef s) =? 0)%nat.

(** The kept branch, up to the size check. *)
Definition keep_frame (p : Props) (r : Render) (screenshot frameHash : string)
    (s : Session) : Session :=
  let newCount := r_captureCount r + 1 in
  {|
    captureCount := newCount;
    captureRate :=
      if isDifferent s frameHash
      then Z.max 500 (captureRate s - 100)
      else Z.min 2000 (captureRate s + 100);
    isRecording := isRecording s;
    frameBufferRef := frameBufferRef s ++ [screenshot];
    lastFrameHashRef := frameHash;
    captureIntervalRef := captureIntervalRef s;
    frameCaptureCalls :=
      if onFrameCapture p then frameCaptureCalls s ++ [newCount]
      else frameCaptureCalls s;
    batchRequests := batchRequests s;
    summarizeRequests := summarizeRequests s;
    analysisCompleteCalls := analysisCompleteCalls s
  |}.

(** The interval callback. *)
Definition intervalTick (p : Props) (r : Render) (shot : Shot) (s : Session)
    : Session :=
  match shot with
  | StreamInactive reply => stopCapture p r reply s
  | NoScreenshot => s
  | Screenshot screenshot =>
    if String.eqb screenshot "" then s
    else
      let frameHash := simpleHash screenshot in
      if keeps s frameHash then
        let s := keep_frame p r screenshot frameHash s in
        if (5 <=? length (frameBufferRef s))%nat then processFrameBuffer s
        else s
      else s
  end.

(** The 5000ms timer: flush whatever is buffered. *)
Definition bufferTimerTick (s : Session) : Session :=
  match frameBufferRef s with
  | [] => s
  | _ => processFrameBuffer s
  end.

(** Timer events of a session.  The capture interval only fires while it is
    set; the buffer timer is independent of it. *)
Inductive Event :=
  | EvTick (shot : Shot)
  | EvBufferTimer.

Definition step (p : Props) (r : Render) (s : Session) (e : Event) : Session :=
  match e with
  | EvTick shot =>
    match captureIntervalRef s with
    | Some _ => intervalTick p r shot s
    | None => s
    end
  | EvBufferTimer => bufferTimerTick s
  end.

Definition run (p : Props) (r : Render) (s : Session) (es : list Event) : Session :=
  fold_left (step p r) es s.

(** A session as the component starts it: first render, both callbacks. *)
Definition both_callbacks : Props :=
  {| onFrameCapture := true; onAnalysisComplete := true |}.

Definition session_start : Session := startPeriodicCapture first_render mount.

Definition frames (shots : list string) : list Event :=
  map (fun d => EvTick (Screenshot d)) shots.

(** Every frame kept so far, in order: the flushed batches, then the buffer. *)
Definition held (s : Session) : list string :=
  concat (batchRequests s) ++ frameBufferRef s.

(** The size check at the end of the kept branch. *)
Definition flush_if_full (s : Session) : Session :=
  if (5 <=? length (frameBufferRef s))%nat then processFrameBuffer s else s.

(** A first-session render that sees the given [analyses]. *)
Definition render_with (analyses : list string) : Render := {|
  r_captureCount := 0;
  r_captureRate := 1000;
  r_analyses := analyses
|}.

(** Each frame is judged different from the one evaluated before it, the
    first from the stored hash. *)
Fixpoint all_different (stored : string) (shots : list string) : bool :=
  match shots with
  | [] => true
  | shot :: rest =>
    negb (String.eqb shot "") && negb (String.eqb stored (simpleHash shot))
    && all_different (simpleHash shot) rest
  end.

(** The differ in the words of the specification: keep the first frame of the
    session and every frame whose fingerprint differs from the stored one;
    store the fingerprint of each kept frame. *)
Fixpoint spec_kept (stored : option string) (shots : list string) : list string :=
  match shots with
  | [] => []
  | shot :: rest =>
    match stored with
    | None => shot :: spec_kept (Some (simpleHash shot)) rest
    | Some previous =>
      if String.eqb previous (simpleHash shot) then spec_kept stored rest
      else shot :: spec_kept (Some (simpleHash shot)) rest
    end
  end.

End Capture.

(** ** The summarizing helper of the stand-alone share dialog *)

Module Legacy.
Import Js.
Import Summarize.

Definition nl : string := String (ascii_of_nat 10) EmptyString.

Definition fallback (allAnalyses : list string) : string :=
  "Failed to generate summary. Individual frame analyses:" +:+ nl +:+ nl
  +:+ String.concat (nl +:+ nl) allAnalyses.

(** Whether [summarizeAnalyses] gets as far as its [fetch]. *)
Definition calls_summarizer (allAnalyses : list string) : bool :=
  (2 <=? length allAnalyses)%nat.

(** [summarizeAnalyses] of [ShareModal.tsx]. *)
Definition summarizeAnalyses (allAnalyses : list string) (reply : SummarizeReply)
    : string :=
  match allAnalyses with
  | [] => "No frames were successfully analyzed."
  | [only] => only
  | _ =>
    match reply with
    | Reply status summary =>
      if status_ok status then or_default summary "No summary available"
      else fallback allAnalyses
    | FetchRejects _ => fallback allAnalyses
    end
  end.

End Legacy.

(** ** The batch analysis route *)

Module Batch.
Import Js.

(** A parsed JSON value.  Numbers are kept as integers: the handler only ever
    tests a number for being zero. *)
Inductive json :=
  | JNull
  | JBool (b : bool)
  | JNum (n : Z)
  | JStr (s : string)
  | JArr (items : list json)
  | JObj (fields : list (string * json)).

(** ToBoolean, as [!x] uses it. *)
Definition truthy (v : json) : bool :=
  match v with
  | JNull => false
  | JBool b => b
  | JNum n => negb (n =? 0)%Z
  | JStr s => negb (String.eqb s "")
  | JArr _ => true
  | JObj _ => true
  end.

(** Reading property [key] of a non-null value: [None] is [undefined].  For a
    parsed object the last occurrence of a key wins; arrays, strings, numbers
    and booleans have no such own property. *)
Fixpoint lookup_last (key : string) (fields : list (string * json)) : option json :=
  match fields with
  | [] => None
  | (k, v) :: rest =>
    match lookup_last key rest with
    | Some w => Some w
    | None => if String.eqb k key then Some v else None
    end
  end.

Definition get_field (key : string) (v : json) : option json :=
  match v with
  | JObj fields => lookup_last key fields
  | _ => None
  end.

(** [s.split(sep)] for a one-character separator. *)
Fixpoint split_on (sep : ascii) (s : string) : list string :=
  match s with
  | EmptyString => [""]
  | String c rest =>
    if Ascii.eqb c sep then "" :: split_on sep rest
    else
      match split_on sep rest with
      | hd :: tl => String c hd :: tl
      | [] => [String c ""]
      end
  end.

(** What [await req.json()] gives. *)
Inductive Body :=
  | Unparsable (e : Thrown)
  | Parsed (v : json).

(** The wording of the two TypeErrors the handler can run into depends on the
    JavaScript engine. *)
Record Engine := {
  destructure_null_message : string;
  not_a_function_message : string
}.

(** What the vision model call does for the image at a given position of
    [images], given the base64 payload sent: its text ([null] possible), or a
    throw.  A response without choices makes [response.choices[0].message]
    throw inside the same [try], so it counts as a throw. *)
Inductive DescribeOutcome :=
  | Resolves (content : option string)
  | Rejects (e : Thrown).

Definition Describer := nat -> string -> DescribeOutcome.

Inductive Payload :=
  | ErrorBody (error : string)
  | AnalysesBody (analyses : list string).

Record Response := {
  status : nat;
  payload : Payload
}.

(** One element of [batchPromises]: already resolved to its string, or waiting
    for the describer call made for image [index]. *)
Inductive Promise :=
  | Settled (value : string)
  | InFlight (index : nat) (base64Image : string).

Inductive Phase :=
  | LoopHead
  | Awaiting (batchPromises : list Promise)
  | Responded (resp : Response).

(** The handler between two suspension points. *)
Record Handler := {
  images : list json;
  i : nat;
  analyses : list string;
  phase : Phase;
  describerCalls : list nat
}.

Definition concurrencyLimit : nat := 3.

Definition invalid_format (n : nat) : string :=
  "Image " +:+ pretty n +:+ " has invalid format".

Definition extract_failed (n : nat) : string :=
  "Failed to extract base64 data from image " +:+ pretty n.

Definition error_analyzing (n : nat) (e : Thrown) : string :=
  "Error analyzing image " +:+ pretty n +:+ ": " +:+ message_or_unknown e.

(** The outer [catch]. *)
Definition failed_message (e : Thrown) : string :=
  match e with
  | ThrowError m => "Failed to analyze images: " +:+ m
  | ThrowOther => "Failed to analyze images"
  end.

Definition responded (st : nat) (p : Payload) : Handler := {|
  images := [];
  i := 0;
  analyses := [];
  phase := Responded {| status := st; payload := p |};
  describerCalls := []
|}.

Definition loop_start (imgs : list json) : Handler := {|
  images := imgs;
  i := 0;
  analyses := [];
  phase := LoopHead;
  describerCalls := []
|}.

Definition is_in_flight (p : Promise) : bool :=
  match p with
  | InFlight _ _ => true
  | Settled _ => false
  end.

Definition call_index (p : Promise) : option nat :=
  match p with
  | InFlight index _ => Some index
  | Settled _ => None
  end.

Definition settled_value (p : Promise) : option string :=
  match p with
  | Settled v => Some v
  | InFlight _ _ => None
  end.

(** Describer calls issued and not yet answered. *)
Definition in_flight (h : Handler) : nat :=
  match phase h with
  | Awaiting ps => length (filter (fun p => is_in_flight p = true) ps)
  | _ => 0
  end.

Section Route.

Variable js : Engine.
Variable describe : Describer.

(** The mapped async function up to its first [await]: the two checks, then
    the describer call. *)
Definition start_image (i index : nat) (imageData : json) : Promise :=
  if negb (truthy imageData) then Settled (invalid_format (i + index))
  else
    match imageData with
    | JStr s =>
      if negb (String.prefix "data:image/" s) then Settled (invalid_format (i + index))
      else
        match split_on "," s !! 1 with
        | Some base64Image =>
          if String.eqb base64Image "" then Settled (extract_failed (i + index))
          else InFlight (i + index) base64Image
        | None => Settled (extract_failed (i + index))
        end
    | _ =>
      Settled (error_analyzing (i + index) (ThrowError (not_a_function_message js)))
    end.

(** The rest of it, once the describer call comes back. *)
Definition settle_call (index : nat) (base64Image : string) : string :=
  match describe index base64Image with
  | Resolves content => or_default content "No analysis available"
  | Rejects e => error_analyzing index e
  end.

(** The handler up to the loop. *)
Definition POST_enter (req : Body) : Handler :=
  match req with
  | Unparsable e => responded 500 (ErrorBody (failed_message e))
  | Parsed JNull =>
    responded 500 (ErrorBody (failed_message (ThrowError (destructure_null_message js))))
  | Parsed body =>
    match get_field "images" body with
    | Some (JArr (first :: rest)) => loop_start (first :: rest)
    | _ => responded 400 (ErrorBody "Images array is required")
    end
  end.

(** What can happen next: the handler itself runs on ([Continue]), or the
    describer call behind promise [k] of the current batch comes back. *)
Inductive Event :=
  | Continue
  | Settles (k : nat).

Definition step (h : Handler) (e : Event) : option Handler :=
  match phase h, e with
  | LoopHead, Continue =>
    if (i h <? length (images h))%nat then
      let batch := take concurrencyLimit (drop (i h) (images h)) in
      let batchPromises := imap (start_image (i h)) batch in
      Some {|
        images := images h;
        i := i h;
        analyses := analyses h;
        phase := Awaiting batchPromises;
        describerCalls := describerCalls h ++ omap call_index batchPromises
      |}
    else
      Some {|
        images := images h;
        i := i h;
        analyses := analyses h;
        phase := Responded {| status := 200; payload := AnalysesBody (analyses h) |};
        describerCalls := describerCalls h
      |}
  | Awaiting ps, Settles k =>
    match ps !! k with
    | Some (InFlight index base64Image) =>
      Some {|
        images := images h;
        i := i h;
        analyses := analyses h;
        phase := Awaiting (<[k := Settled (settle_call index base64Image)]> ps);
        describerCalls := describerCalls h
      |}
    | _ => None
    end
  | Awaiting ps, Continue =>
    match mapM settled_value ps with
    | Some batchResults =>
      Some {|
        images := images h;
        i := i h + concurrencyLimit;
        analyses := analyses h ++ batchResults;
        phase := LoopHead;
        describerCalls := describerCalls h
      |}
    | None => None
    end
  | _, _ => None
  end.

Fixpoint exec (h : Handler) (es : list Event) : option Handler :=
  match es with
  | [] => Some h
  | e :: es =>
    match step h e with
    | Some h' => exec h' es
    | None => None
    end
  end.

(** The string a promise resolves to. *)
Definition resolve (p : Promise) : string :=
  match p with
  | Settled v => v
  | InFlight index base64Image => settle_call index base64Image
  end.

(** The record the mapped function produces for the image at position [n],
    once its promise has resolved. *)
Definition frame_result (n : nat) (imageData : json) : string :=
  resolve (start_image 0 n imageData).

(** The response with one record per image, in the order of [images]. *)
Definition in_order (imgs : list json) : Response :=
  {| status := 200; payload := AnalysesBody (imap frame_result imgs) |}.

(** A schedule that answers the calls of each batch first to last. *)
Fixpoint fifo (fuel : nat) (h : Handler) : list Event :=
  match fuel with
  | 0 => []
  | S fuel =>
    match phase h with
    | Responded _ => []
    | LoopHead =>
      match step h Continue with
      | Some h' => Continue :: fifo fuel h'
      | None => []
      end
    | Awaiting ps =>
      match list_find (fun p => is_in_flight p = true) ps with
      | Some (k, _) =>
        match step h (Settles k) with
        | Some h' => Settles k :: fifo fuel h'
        | None => []
        end
      | None =>
        match step h Continue with
        | Some h' => Continue :: fifo fuel h'
        | None => []
        end
      end
    end
  end.

(** What holds of the handler at every suspension point of a request with
    images [imgs]. *)
Definition consistent (imgs : list json) (h : Handler) : Prop :=
  images h = imgs
  /\ (forall n, n ∈ describerCalls h ->
        exists img b, imgs !! n = Some img /\ start_image 0 n img = InFlight n b)
  /\ match phase h with
     | LoopHead => analyses h = take (i h) (imap frame_result imgs)
     | Awaiting ps =>
       analyses h = take (i h) (imap frame_result imgs)
       /\ resolve <$> ps = take concurrencyLimit (drop (i h) (imap frame_result imgs))
     | Responded resp => resp = in_order imgs
     end.

End Route.


(** A bound on the number of steps the handler can still take. *)
Definition measure (h : Handler) : nat :=
  match phase h with
  | Responded _ => 0
  | LoopHead => 1 + 6 * (length (images h) - i h)
  | Awaiting _ =>
    2 + in_flight h + 6 * (length (images h) - (i h + concurrencyLimit))
  end.

(** A request of four images, the second one missing, and two describers:
    one that fails on the image at a given position, one that never fails. *)
Definition sample_images : list json :=
  [JStr "data:image/jpeg;base64,AAAA"; JNull;
   JStr "data:image/jpeg;base64,BBBB"; JStr "data:image/jpeg;base64,CCCC"].

Definition sample_body : json := JObj [("images", JArr sample_images)].

Definition failing_at (k : nat) : Describer :=
  fun n b =>
    if (n =? k)%nat then Rejects (ThrowError "timeout")
    else Resolves (Some ("description of " +:+ b)).

Definition never_failing : Describer :=
  fun n b => Resolves (Some ("description of " +:+ b)).

(** Two schedules for it: the calls of the first batch answered last to
    first, and first to last. *)
Definition last_first : list Event :=
  [Continue; Settles 2; Settles 0; Continue; Continue; Settles 0; Continue; Continue].

Definition first_last : list Event :=
  [Continue; Settles 0; Settles 2; Continue; Continue; Settles 0; Continue; Continue].

(** The messages of V8, the engine of Node.js. *)
Definition v8 : Engine := {|
  destructure_null_message :=
    "Cannot destructure property 'images' of '(intermediate value)' as it is null.";
  not_a_function_message := "imageData.startsWith is not a function"
|}.

(** The handler after a run, [h] if the schedule does not fit. *)
Definition after (js : Engine) (describe : Describer) (h : Handler)
    (es : list Event) : Handler :=
  match exec js describe h es with
  | Some h' => h'
  | None => h
  end.

End Batch.

(** ** Further vocabulary for the hook *)

Module CaptureMore.
Import Js Summarize Capture.

(** The hash without the 32-bit wrap: [31 * hash + char] over the integers. *)
Definition poly_step (acc char : Z) : Z := (31 * acc + char)%Z.

Definition poly31 (codes : list Z) : Z := fold_left poly_step codes 0%Z.

(** The screenshots an event sequence offers to the differ, in order. *)
Definition shot_of (e : Event) : option string :=
  match e with
  | EvTick (Screenshot data) => Some data
  | _ => None
  end.

Definition shots_of (es : list Event) : list string := omap shot_of es.

(** The buffer is below the flush threshold and no posted batch is empty or
    longer than the threshold. *)
Definition tidy (s : Session) : Prop :=
  length (frameBufferRef s) <= 4
  /\ Forall (fun batch : list string => 1 <= length batch <= 5) (batchRequests s).

End CaptureMore.

(** ** The summarize route on parsed bodies *)

Module SummarizeRoute.
Import Js Summarize.
Import Batch (json, JNull, JBool, JNum, JStr, JArr, JObj, Body, Unparsable, Parsed,
              get_field).

Inductive SummaryPayload :=
  | SummaryError (error : string)
  | SummaryBody (summary : option string).

Record SummaryResponse := {
  summary_status : nat;
  summary_payload : SummaryPayload
}.

(** The outer [catch]. *)
Definition failed_message (e : Thrown) : string :=
  match e with
  | ThrowError m => "Failed to summarize analyses: " +:+ m
  | ThrowOther => "Failed to summarize analyses"
  end.

(** [POST] of [summarize/route.ts]: the response and the model calls made,
    each with the [analyses] array its prompt was built from.  [null_message]
    is the engine's wording for destructuring [null]. *)
Definition POST (null_message : string) (model : list json -> ModelOutcome)
    (req : Body) : SummaryResponse * list (list json) :=
  match req with
  | Unparsable e =>
    ({| summary_status := 500; summary_payload := SummaryError (failed_message e) |}, [])
  | Parsed JNull =>
    ({| summary_status := 500;
        summary_payload := SummaryError (failed_message (ThrowError null_message)) |}, [])
  | Parsed body =>
    match get_field "analyses" body with
    | Some (JArr (first :: rest)) =>
      match model (first :: rest) with
      | Resolves content =>
        ({| summary_status := 200; summary_payload := SummaryBody content |},
         [first :: rest])
      | Rejects e =>
        ({| summary_status := 500; summary_payload := SummaryError (failed_message e) |},
         [first :: rest])
      end
    | _ =>
      ({| summary_status := 400;
          summary_payload := SummaryError "Analyses array is required" |}, [])
    end
  end.

(** [JSON.stringify({ analyses })] as the route parses it back. *)
Definition request_body (analyses : list string) : json :=
  JObj [("analyses", JArr (JStr <$> analyses))].

(** What the hook's [fetch] sees of a response: [response.status] and
    [data.summary]. *)
Definition reply_of (resp : SummaryResponse) : SummarizeReply :=
  Reply (summary_status resp)
    match summary_payload resp with
    | SummaryBody summary => summary
    | SummaryError _ => None
    end.

End SummarizeRoute.

(** ** The hook's batch request *)

Module BatchClient.
Import Js Batch.

(** What [fetch('/api/analyze/batch')] and the reading of its body come back
    with: a throw, or the route's response. *)
Inductive BatchReply :=
  | BatchThrows (e : Thrown)
  | BatchAnswer (resp : Response).

(** [JSON.stringify({ images: screenshots })] as the route parses it back. *)
Definition request_body (screenshots : list string) : json :=
  JObj [("images", JArr (JStr <$> screenshots))].

(** [analyzeScreenshots] on the [analyses] and [error] state: the new state
    after the request for [screenshots] came back with [reply]. *)
Definition analyzeScreenshots (reply : BatchReply) (screenshots : list string)
    (analyses : list string) (error : option string) : list string * option string :=
  match screenshots with
  | [] => (analyses, error)
  | _ =>
    match reply with
    | BatchThrows e =>
      (analyses, Some ("Failed to analyze batch: " +:+ message_or_unknown e))
    | BatchAnswer resp =>
      if status_ok (status resp) then
        match payload resp with
        | AnalysesBody results => (analyses ++ results, error)
        | ErrorBody _ => (analyses, error)
        end
      else
        (analyses,
         Some ("Failed to analyze batch: API request failed with status "
               +:+ pretty (status resp)))
    end
  end.

(** No comma in the string. *)
Fixpoint comma_free (s : string) : bool :=
  match s with
  | EmptyString => true
  | String c rest => negb (Ascii.eqb c ",") && comma_free rest
  end.

(** A data URL as [canvas.toDataURL] writes it: media type and parameters,
    a comma, the base64 payload. *)
Definition data_url (media payload : string) : string :=
  "data:" +:+ media +:+ "," +:+ payload.

(** The describer calls a request leads to: the positions of the images that
    pass both checks, in order. *)
Definition wanted_calls (js : Engine) (imgs : list json) : list nat :=
  omap call_index (imap (start_image js 0) imgs).

(** The calls made so far are those for the images before the current
    position (at the loop head) or up to the end of the current batch. *)
Definition calls_tracked (js : Engine) (imgs : list json) (h : Handler) : Prop :=
  images h = imgs
  /\ match phase h with
     | LoopHead => describerCalls h = wanted_calls js (take (i h) imgs)
     | Awaiting _ =>
       i h < length imgs
       /\ describerCalls h = wanted_calls js (take (i h + concurrencyLimit) imgs)
     | Responded _ => describerCalls h = wanted_calls js imgs
     end.

End BatchClient.

(** ** The single-image route and its client in the stand-alone dialog *)

Module SingleRoute.
Import Js Summarize.
Import Batch (json, JNull, JBool, JNum, JStr, JArr, JObj, Body, Unparsable, Parsed,
              get_field, truthy, split_on, Engine, destructure_null_message,
              not_a_function_message).

Inductive AnalysisPayload :=
  | AnalysisError (error : string)
  | AnalysisBody (analysis : string).

Record AnalysisResponse := {
  analysis_status : nat;
  analysis_payload : AnalysisPayload
}.

(** The outer [catch]. *)
Definition failed_message (e : Thrown) : string :=
  match e with
  | ThrowError m => "Failed to analyze image: " +:+ m
  | ThrowOther => "Failed to analyze image"
  end.

Definition bad_request (error : string) : AnalysisResponse * list string :=
  ({| analysis_status := 400; analysis_payload := AnalysisError error |}, []).

Definition server_error (e : Thrown) (calls : list string)
    : AnalysisResponse * list string :=
  ({| analysis_status := 500; analysis_payload := AnalysisError (failed_message e) |},
   calls).

(** [POST] of [api/analyze/route.ts]: the response and the base64 payloads
    the model was called with. *)
Definition POST (js : Engine) (model : string -> ModelOutcome) (req : Body)
    : AnalysisResponse * list string :=
  match req with
  | Unparsable e => server_error e []
  | Parsed JNull => server_error (ThrowError (destructure_null_message js)) []
  | Parsed body =>
    match get_field "imageData" body with
    | None => bad_request "Image data is required"
    | Some imageData =>
      if negb (truthy imageData) then bad_request "Image data is required"
      else
        match imageData with
        | JStr s =>
          if negb (String.prefix "data:image/" s)
          then bad_request "Invalid image data - missing data URL prefix"
          else if (String.length s <? 1000)%nat
          then bad_request "Invalid image data - content too small"
          else
            match split_on "," s !! 1 with
            | Some base64Image =>
              if String.eqb base64Image ""
              then bad_request "Failed to process image data"
              else
                match model base64Image with
                | Resolves content =>
                  ({| analysis_status := 200;
                      analysis_payload := AnalysisBody (or_default content "") |},
                   [base64Image])
                | Rejects e => server_error e [base64Image]
                end
            | None => bad_request "Failed to process image data"
            end
        | _ => server_error (ThrowError (not_a_function_message js)) []
        end
    end
  end.

(** What [analyzeScreenshot] of [ShareModal.tsx] gets back: a throw while
    fetching or reading the body, or [response.status] and [data.analysis]. *)
Inductive AnalysisReply :=
  | AnalysisThrows (e : Thrown)
  | AnalysisAnswer (status : nat) (analysis : option string).

Definition reply_of (resp : AnalysisResponse) : AnalysisReply :=
  AnalysisAnswer (analysis_status resp)
    match analysis_payload resp with
    | AnalysisBody analysis => Some analysis
    | AnalysisError _ => None
    end.

(** [analyzeScreenshot] of [ShareModal.tsx]. *)
Definition analyzeScreenshot (reply : AnalysisReply) (frameNumber : nat) : string :=
  match reply with
  | AnalysisThrows e =>
    "Failed to analyze frame " +:+ pretty frameNumber +:+ ": " +:+ message_or_unknown e
  | AnalysisAnswer status analysis =>
    if status_ok status then or_default analysis "No analysis available"
    else
      "Failed to analyze frame " +:+ pretty frameNumber
      +:+ ": API request failed with status " +:+ pretty status
  end.

(** [{ imageData }] as the route parses it back. *)
Definition request_body (imageData : string) : json :=
  JObj [("imageData", JStr imageData)].

(** A data URL long enough for the route: 1000 characters of payload. *)
Definition long_image : string :=
  "data:image/png;base64," +:+ String.concat "" (replicate 1000 "A").

(** [a] occurs in [s]. *)
Definition occurs_in (a s : string) : Prop :=
  exists before after, s = before +:+ a +:+ after.

End SingleRoute.

(** ** Properties of the capture hook *)

Module CaptureFacts.
Import Js Summarize Capture.

(** *** The hash *)

Lemma toString16_nonempty (n : Z) : toString16 n <> "".
Proof.
  unfold toString16.
  destruct (Z.to_hex_int n) as [d | d]; [destruct d | ]; discriminate.
Qed.

Lemma simpleHash_nonempty (str : string) : simpleHash str <> "".
Proof. apply toString16_nonempty. Qed.

Lemma to_int32_range (z : Z) : (- 2 ^ 31 <= to_int32 z < 2 ^ 31)%Z.
Proof.
  unfold to_int32.
  pose proof (Z.mod_pos_bound (z + 2 ^ 31) (2 ^ 32) ltac:(lia)). lia.
Qed.

(** [hash & hash] only converts to 32 bits. *)
Lemma hash_step_wraps (hash char : Z) :
  hash_step hash char = to_int32 (shl32 hash 5 - hash + char).
Proof. unfold hash_step, and32. apply Z.land_diag. Qed.

(** *** What a flush leaves alone *)

Lemma processFrameBuffer_held (s : Session) :
  held (processFrameBuffer s) = held s.
Proof.
  unfold processFrameBuffer, held.
  destruct (frameBufferRef s) as [| x buffer] eqn:E; simpl; [by rewrite E |].
  by rewrite concat_app, app_nil_r; simpl; rewrite app_nil_r.
Qed.

Lemma processFrameBuffer_fields (s : Session) :
  captureRate (processFrameBuffer s) = captureRate s
  /\ lastFrameHashRef (processFrameBuffer s) = lastFrameHashRef s
  /\ captureIntervalRef (processFrameBuffer s) = captureIntervalRef s
  /\ frameCaptureCalls (processFrameBuffer s) = frameCaptureCalls s.
Proof. unfold processFrameBuffer. by destruct (frameBufferRef s). Qed.

Lemma bufferTimerTick_flushes (s : Session) :
  bufferTimerTick s = processFrameBuffer s.
Proof. unfold bufferTimerTick, processFrameBuffer. by destruct (frameBufferRef s). Qed.

(** *** One firing of the capture interval *)

Lemma flush_if_full_fields (s : Session) :
  held (flush_if_full s) = held s
  /\ captureRate (flush_if_full s) = captureRate s
  /\ lastFrameHashRef (flush_if_full s) = lastFrameHashRef s
  /\ captureIntervalRef (flush_if_full s) = captureIntervalRef s
  /\ frameCaptureCalls (flush_if_full s) = frameCaptureCalls s.
Proof.
  unfold flush_if_full. case_match; [| done].
  split; [apply processFrameBuffer_held | apply processFrameBuffer_fields].
Qed.

Lemma tick_screenshot (p : Props) (r : Render) (s : Session) (shot : string) :
  shot <> "" ->
  intervalTick p r (Screenshot shot) s =
    if keeps s (simpleHash shot)
    then flush_if_full (keep_frame p r shot (simpleHash shot) s)
    else s.
Proof.
  intros Hne. unfold intervalTick, flush_if_full.
  destruct (String.eqb_spec shot ""); [done |].
  by destruct (keeps s (simpleHash shot)).
Qed.

Lemma keeps_true_iff (s : Session) (h : string) :
  keeps s h = true <-> lastFrameHashRef s <> h \/ frameBufferRef s = [].
Proof.
  unfold keeps, isDifferent. rewrite orb_true_iff, negb_true_iff.
  rewrite Nat.eqb_eq. destruct (String.eqb_spec (lastFrameHashRef s) h).
  - split; intros [H | H]; try done.
    + right. by destruct (frameBufferRef s).
    + right. by rewrite H.
  - split; intros _; by left.
Qed.

Lemma keeps_false_iff (s : Session) (h : string) :
  keeps s h = false <-> lastFrameHashRef s = h /\ frameBufferRef s <> [].
Proof.
  destruct (keeps s h) eqn:E.
  - apply keeps_true_iff in E. split; [done |]. intros [H1 H2]. by destruct E.
  - split; [intros _ | done].
    destruct (decide (lastFrameHashRef s = h)) as [Heq | Hne].
    + split; [done |]. intros Hb.
      assert (keeps s h = true) by (apply keeps_true_iff; by right). congruence.
    + assert (keeps s h = true) by (apply keeps_true_iff; by left). congruence.
Qed.

Lemma keep_frame_held (p : Props) (r : Render) (shot h : string) (s : Session) :
  held (keep_frame p r shot h s) = held s ++ [shot].
Proof. unfold held; simpl. by rewrite app_assoc. Qed.

(** A kept frame is appended to what is held and its hash stored; a frame
    that is not kept changes nothing at all. *)
Lemma tick_kept (p : Props) (r : Render) (s : Session) (shot : string) :
  shot <> "" -> keeps s (simpleHash shot) = true ->
  held (intervalTick p r (Screenshot shot) s) = held s ++ [shot]
  /\ lastFrameHashRef (intervalTick p r (Screenshot shot) s) = simpleHash shot.
Proof.
  intros Hne Hk. rewrite tick_screenshot, Hk by done.
  destruct (flush_if_full_fields (keep_frame p r shot (simpleHash shot) s))
    as (Hh & _ & Hl & _).
  rewrite Hh, Hl. split; [apply keep_frame_held | done].
Qed.

Lemma tick_dropped (p : Props) (r : Render) (s : Session) (shot : string) :
  shot <> "" -> keeps s (simpleHash shot) = false ->
  intervalTick p r (Screenshot shot) s = s.
Proof. intros Hne Hk. by rewrite tick_screenshot, Hk. Qed.

Lemma run_app (p : Props) (r : Render) (s : Session) (es1 es2 : list Event) :
  run p r s (es1 ++ es2) = run p r (run p r s es1) es2.
Proof. apply fold_left_app. Qed.

Lemma run_cons (p : Props) (r : Render) (s : Session) (e : Event) (es : list Event) :
  run p r s (e :: es) = run p r (step p r s e) es.
Proof. done. Qed.

Lemma frames_cons (shot : string) (shots : list string) :
  frames (shot :: shots) = EvTick (Screenshot shot) :: frames shots.
Proof. done. Qed.

Lemma step_tick (p : Props) (r : Render) (s : Session) (shot : Shot) :
  captureIntervalRef s <> None ->
  step p r s (EvTick shot) = intervalTick p r shot s.
Proof. intros Hlive. simpl. by destruct (captureIntervalRef s). Qed.

(** A repeat of the frame just kept, while the buffer still holds something,
    is dropped, however often it comes. *)
Lemma repeats_dropped (p : Props) (r : Render) (shot : string) (n : nat) (s : Session) :
  shot <> "" -> captureIntervalRef s <> None ->
  lastFrameHashRef s = simpleHash shot -> frameBufferRef s <> [] ->
  run p r s (frames (replicate n shot)) = s.
Proof.
  intros Hne Hlive Hlast Hbuf. induction n as [| n IH]; [done |].
  change (replicate (S n) shot) with (shot :: replicate n shot).
  rewrite frames_cons, run_cons, step_tick by done.
  rewrite tick_dropped; [apply IH | done | by apply keeps_false_iff].
Qed.

(** *** The differ *)

Lemma keep_frame_no_flush (p : Props) (r : Render) (shot h : string) (s : Session) :
  length (frameBufferRef s) < 4 ->
  flush_if_full (keep_frame p r shot h s) = keep_frame p r shot h s.
Proof.
  intros Hlen. unfold flush_if_full.
  assert ((5 <=? length (frameBufferRef (keep_frame p r shot h s)))%nat = false) as ->;
    [| done].
  apply Nat.leb_gt. cbn [keep_frame frameBufferRef]. rewrite length_app. simpl. lia.
Qed.

(** C1 (as the code has it). A frame is kept exactly when its fingerprint
    differs from the stored one or the frame buffer is empty at that moment:
    a kept frame joins the held frames and its fingerprint is stored, a frame
    that is not kept leaves the whole state, stored fingerprint included, as
    it was.  The first frame of a session is always kept.  Of a run of
    consecutively evaluated frames with one fingerprint, starting on a buffer
    of fewer than four frames so that no flush empties it, exactly the first
    is kept. *)
Theorem C1_kept_iff_differs_or_buffer_empty
    (p : Props) (r : Render) (s : Session) (shot : string) (n : nat) :
  shot <> "" -> captureIntervalRef s <> None ->
  (lastFrameHashRef s <> simpleHash shot \/ frameBufferRef s = [] ->
     held (step p r s (EvTick (Screenshot shot))) = held s ++ [shot]
     /\ lastFrameHashRef (step p r s (EvTick (Screenshot shot))) = simpleHash shot)
  /\ (lastFrameHashRef s = simpleHash shot /\ frameBufferRef s <> [] ->
     step p r s (EvTick (Screenshot shot)) = s)
  /\ held (step p r (startPeriodicCapture r s) (EvTick (Screenshot shot)))
     = held (startPeriodicCapture r s) ++ [shot]
  /\ (lastFrameHashRef s <> simpleHash shot -> length (frameBufferRef s) < 4 ->
     held (run p r s (frames (replicate (S n) shot))) = held s ++ [shot]).
Proof.
  intros Hne Hlive. rewrite !step_tick by done. repeat split.
  - by apply tick_kept, keeps_true_iff.
  - by apply tick_kept, keeps_true_iff.
  - intros Hdrop. by apply tick_dropped, keeps_false_iff.
  - apply tick_kept; [done |]. apply keeps_true_iff. by right.
  - intros Hdiff Hlen.
    assert (Hk : keeps s (simpleHash shot) = true) by (apply keeps_true_iff; by left).
    change (replicate (S n) shot) with (shot :: replicate n shot).
    rewrite frames_cons, run_cons, step_tick, tick_screenshot, Hk by done.
    rewrite keep_frame_no_flush by done.
    rewrite repeats_dropped; [apply keep_frame_held | done | done | done |].
    simpl. by destruct (frameBufferRef s).
Qed.

Lemma C1_witness :
  held (run both_callbacks first_render session_start (frames (replicate 3 "a")))
  = held session_start ++ ["a"].
Proof.
  apply (C1_kept_iff_differs_or_buffer_empty
           both_callbacks first_render session_start "a" 2);
    [discriminate | discriminate | vm_compute; discriminate | vm_compute; lia].
Defined.

(** Against C1 as the specification words it: five different frames fill the
    buffer and flush it, and a repeat of the fifth is then kept although its
    fingerprint is the stored one and it is not the first frame. *)
Lemma C1_counterexample :
  held (run both_callbacks first_render session_start
          (frames ["a"; "b"; "c"; "d"; "e"; "e"]))
  = ["a"; "b"; "c"; "d"; "e"; "e"]
  /\ spec_kept None ["a"; "b"; "c"; "d"; "e"; "e"] = ["a"; "b"; "c"; "d"; "e"].
Proof. split; vm_compute; reflexivity. Qed.

(** *** The adaptive rate *)

Lemma stopCapture_rate (p : Props) (r : Render) (reply : SummarizeReply) (s : Session) :
  captureRate (stopCapture p r reply s) = captureRate s.
Proof. unfold stopCapture. simpl. apply processFrameBuffer_fields. Qed.

Lemma tick_rate (p : Props) (r : Render) (s : Session) (shot : string) :
  shot <> "" ->
  captureRate (intervalTick p r (Screenshot shot) s) =
    if keeps s (simpleHash shot)
    then if isDifferent s (simpleHash shot)
         then Z.max 500 (captureRate s - 100)
         else Z.min 2000 (captureRate s + 100)
    else captureRate s.
Proof.
  intros Hne. rewrite tick_screenshot by done.
  destruct (keeps s (simpleHash shot)); [| done].
  by destruct (flush_if_full_fields (keep_frame p r shot (simpleHash shot) s))
    as (_ & -> & _).
Qed.

Lemma step_rate_bounds (p : Props) (r : Render) (s : Session) (e : Event) :
  (500 <= captureRate s <= 2000)%Z ->
  (500 <= captureRate (step p r s e) <= 2000)%Z.
Proof.
  intros Hb. destruct e as [shot |]; cbn [step].
  - destruct (captureIntervalRef s); [| done].
    destruct shot as [reply | | shot].
    + cbn [intervalTick]. by rewrite stopCapture_rate.
    + done.
    + destruct (decide (shot = "")) as [-> | Hne]; [done |].
      rewrite tick_rate by done. repeat case_match; lia.
  - rewrite bufferTimerTick_flushes.
    by destruct (processFrameBuffer_fields s) as (-> & _).
Qed.

Lemma run_rate_bounds (p : Props) (r : Render) (es : list Event) (s : Session) :
  (500 <= captureRate s <= 2000)%Z ->
  (500 <= captureRate (run p r s es) <= 2000)%Z.
Proof.
  revert s. induction es as [| e es IH]; intros s Hb; [done |].
  rewrite run_cons. by apply IH, step_rate_bounds.
Qed.

Lemma isDifferent_true_iff (s : Session) (h : string) :
  isDifferent s h = true <-> lastFrameHashRef s <> h.
Proof.
  unfold isDifferent. rewrite negb_true_iff.
  by destruct (String.eqb_spec (lastFrameHashRef s) h).
Qed.

(** The stored hash starts out empty and no hash is: the first frame of a
    session is always judged different. *)
Lemma first_frame_different (r : Render) (s : Session) (shot : string) :
  isDifferent (startPeriodicCapture r s) (simpleHash shot) = true.
Proof. apply isDifferent_true_iff. simpl. intros H. by eapply simpleHash_nonempty. Qed.

(** A frame judged different is kept and speeds the capture up. *)
Lemma tick_different (p : Props) (r : Render) (s : Session) (shot : string) :
  shot <> "" -> lastFrameHashRef s <> simpleHash shot ->
  captureRate (intervalTick p r (Screenshot shot) s) = Z.max 500 (captureRate s - 100)
  /\ lastFrameHashRef (intervalTick p r (Screenshot shot) s) = simpleHash shot
  /\ captureIntervalRef (intervalTick p r (Screenshot shot) s) = captureIntervalRef s.
Proof.
  intros Hne Hdiff.
  assert (Hk : keeps s (simpleHash shot) = true) by (apply keeps_true_iff; by left).
  split; [| split].
  - rewrite tick_rate, Hk by done.
    by apply isDifferent_true_iff in Hdiff as ->.
  - by apply tick_kept.
  - rewrite tick_screenshot, Hk by done.
    by destruct (flush_if_full_fields (keep_frame p r shot (simpleHash shot) s))
      as (_ & _ & _ & -> & _).
Qed.

Lemma all_different_cons (stored shot : string) (rest : list string) :
  all_different stored (shot :: rest) = true ->
  shot <> "" /\ stored <> simpleHash shot /\ all_different (simpleHash shot) rest = true.
Proof.
  simpl. rewrite !andb_true_iff, !negb_true_iff.
  intros [[H1 H2] H3]. repeat split; [| | done].
  - by destruct (String.eqb_spec shot "").
  - by destruct (String.eqb_spec stored (simpleHash shot)).
Qed.

Lemma rate_after_different (p : Props) (r : Render) (shots : list string) (s : Session) :
  captureIntervalRef s <> None -> (500 <= captureRate s)%Z ->
  all_different (lastFrameHashRef s) shots = true ->
  captureRate (run p r s (frames shots))
  = Z.max 500 (captureRate s - 100 * Z.of_nat (length shots)).
Proof.
  revert s. induction shots as [| shot rest IH]; intros s Hlive Hlow Hall.
  - simpl. lia.
  - apply all_different_cons in Hall as (Hne & Hdiff & Hrest).
    rewrite frames_cons, run_cons, step_tick by done.
    destruct (tick_different p r s shot Hne Hdiff) as (Hrate & Hlast & Hint).
    rewrite IH; rewrite ?Hrate, ?Hlast, ?Hint; [| done | lia | done].
    cbn [length]. lia.
Qed.

(** C6 (as the code has it). From a delay of 1000ms, N consecutive frames
    each judged different leave the delay at max(500, 1000 - 100 N).  A frame
    judged unchanged raises the delay by 100ms, capped at 2000ms, only if the
    frame buffer is empty when it is evaluated (the frame is then kept);
    otherwise the delay stays as it is.  Whatever happens, a delay within
    [500, 2000] stays within [500, 2000]. *)
Theorem C6_rate_moves_with_kept_frames
    (p : Props) (r : Render) (s : Session) (shots : list string) (shot : string)
    (es : list Event) :
  captureIntervalRef s <> None -> (500 <= captureRate s <= 2000)%Z ->
  (captureRate s = 1000%Z -> all_different (lastFrameHashRef s) shots = true ->
     captureRate (run p r s (frames shots))
     = Z.max 500 (1000 - 100 * Z.of_nat (length shots)))
  /\ (shot <> "" -> lastFrameHashRef s = simpleHash shot ->
     captureRate (step p r s (EvTick (Screenshot shot)))
     = match frameBufferRef s with
       | [] => Z.min 2000 (captureRate s + 100)
       | _ => captureRate s
       end)
  /\ (500 <= captureRate (run p r s es) <= 2000)%Z.
Proof.
  intros Hlive Hb. split; [| split].
  - intros H1000 Hall. rewrite rate_after_different by (done || lia).
    by rewrite H1000.
  - intros Hne Hsame. rewrite step_tick, tick_rate by done.
    assert (Hd : isDifferent s (simpleHash shot) = false).
    { destruct (isDifferent s (simpleHash shot)) eqn:E; [| done].
      by apply isDifferent_true_iff in E. }
    unfold keeps. rewrite Hd. by destruct (frameBufferRef s).
  - by apply run_rate_bounds.
Qed.

Lemma C6_witness :
  captureRate (run both_callbacks first_render session_start
                 (frames ["a"; "b"; "c"; "d"; "e"; "f"; "g"]))
  = Z.max 500 (1000 - 100 * Z.of_nat 7).
Proof.
  apply (C6_rate_moves_with_kept_frames both_callbacks first_render session_start
           ["a"; "b"; "c"; "d"; "e"; "f"; "g"] "a" []);
    [discriminate | vm_compute; split; discriminate | reflexivity
     | vm_compute; reflexivity].
Defined.

(** Against C6 as the specification words it: after a frame, a timed flush
    and the same frame again the delay is back at 1000ms; the same frame once
    more is judged unchanged, yet the delay stays at 1000ms instead of moving
    to min(2000, 1000 + 100). *)
Lemma C6_counterexample :
  let s := run both_callbacks first_render session_start
             [EvTick (Screenshot "a"); EvBufferTimer; EvTick (Screenshot "a")] in
  captureRate s = 1000%Z
  /\ isDifferent s (simpleHash "a") = false
  /\ captureRate (step both_callbacks first_render s (EvTick (Screenshot "a"))) = 1000%Z
  /\ 1000%Z <> Z.min 2000 (1000 + 100 * 1).
Proof. vm_compute. repeat split; discriminate. Qed.

(** *** The period of the capture interval *)

Lemma tick_keeps_period (p : Props) (r : Render) (s : Session) (shot : string) :
  captureIntervalRef (step p r s (EvTick (Screenshot shot))) = captureIntervalRef s.
Proof.
  cbn [step]. destruct (captureIntervalRef s) eqn:E; [| done].
  destruct (decide (shot = "")) as [-> | Hne]; [done |].
  rewrite tick_screenshot by done.
  destruct (keeps s (simpleHash shot)); [| done].
  by destruct (flush_if_full_fields (keep_frame p r shot (simpleHash shot) s))
    as (_ & _ & _ & -> & _).
Qed.

(** C7 (what the code does). The interval is created once, with the delay the
    render saw; no frame changes its period.  At the first frame of a first
    session the adaptive delay moves to 900ms while the period of the
    interval, the delay to the next capture, is still 1000ms. *)
Theorem C7_period_ignores_rate :
  (forall p r s shot,
     captureIntervalRef (step p r s (EvTick (Screenshot shot))) = captureIntervalRef s)
  /\ captureRate (step both_callbacks first_render session_start
                   (EvTick (Screenshot "a"))) = 900%Z
  /\ captureIntervalRef (step both_callbacks first_render session_start
                          (EvTick (Screenshot "a"))) = Some 1000%Z.
Proof. split; [apply tick_keeps_period | by vm_compute]. Qed.

(** *** The frame count *)

Lemma step_frame_calls (p : Props) (r : Render) (s : Session) (e : Event) :
  frameCaptureCalls (step p r s e) = frameCaptureCalls s
  \/ frameCaptureCalls (step p r s e) = frameCaptureCalls s ++ [r_captureCount r + 1].
Proof.
  destruct e as [shot |]; cbn [step].
  - destruct (captureIntervalRef s); [| by left].
    destruct shot as [reply | | shot].
    + left. unfold intervalTick, stopCapture. cbn [frameCaptureCalls].
      apply processFrameBuffer_fields.
    + by left.
    + destruct (decide (shot = "")) as [-> | Hne]; [by left |].
      rewrite tick_screenshot by done.
      destruct (keeps s (simpleHash shot)); [| by left].
      destruct (flush_if_full_fields (keep_frame p r shot (simpleHash shot) s))
        as (_ & _ & _ & _ & ->).
      simpl. destruct (onFrameCapture p); [by right | by left].
  - left. rewrite bufferTimerTick_flushes. apply processFrameBuffer_fields.
Qed.

(** Every count reported during a session is the render's count plus one. *)
Lemma reported_counts_constant (p : Props) (r : Render) (es : list Event) (s : Session) :
  exists k, frameCaptureCalls (run p r s es)
            = frameCaptureCalls s ++ replicate k (r_captureCount r + 1).
Proof.
  revert s. induction es as [| e es IH]; intros s.
  - exists 0. simpl. by rewrite app_nil_r.
  - rewrite run_cons. destruct (IH (step p r s e)) as [k Hk].
    destruct (step_frame_calls p r s e) as [Heq | Heq]; rewrite Hk, Heq.
    + by exists k.
    + exists (S k). by rewrite <- app_assoc.
Qed.

(** C9 (what the code does). The count handed to the observers is the count
    of the render that started the capture plus one, every time: the second
    kept frame of a first session is reported as 1, not 2. *)
Theorem C9_reported_count_is_stale :
  held (run both_callbacks first_render session_start (frames ["a"; "b"]))
  = ["a"; "b"]
  /\ frameCaptureCalls (run both_callbacks first_render session_start (frames ["a"; "b"]))
     = [1; 1].
Proof. by vm_compute. Qed.

(** *** The end of a session *)

(** When the summarize request fails, the message depends on the number of
    records only. *)
Lemma failed_summary_only_counts (analyses analyses' : list string) (status : nat) :
  status_ok status = false -> length analyses = length analyses' ->
  stop_message analyses (Reply status None) = stop_message analyses' (Reply status None).
Proof.
  intros Hst Hlen. unfold stop_message. rewrite Hst, Hlen.
  destruct analyses, analyses'; done.
Qed.

(** C4 (what the code does). With two records and a summarizer that throws,
    the hook reports only how many frames there were; the texts are not in
    the message.  The helper of the stand-alone dialog does return them. *)
Theorem C4_fallback_drops_the_texts :
  let failing := fun _ : list string => Rejects (ThrowError "upstream") in
  analysisCompleteCalls
    (stopCapture both_callbacks (render_with ["A"; "B"])
       (POST failing ["A"; "B"]) session_start)
  = ["Failed to summarize analyses. Captured 2 frames."]
  /\ Legacy.summarizeAnalyses ["A"; "B"] (POST failing ["A"; "B"])
     = "Failed to generate summary. Individual frame analyses:"
       +:+ Legacy.nl +:+ Legacy.nl +:+ "A" +:+ Legacy.nl +:+ Legacy.nl +:+ "B".
Proof. by vm_compute. Qed.

(** C5 (what the code does). With no record the fixed message is delivered
    and nothing is requested.  With one record the hook still posts it to the
    summarize route and delivers the summary, not the record; the helper of
    the stand-alone dialog returns the record and requests nothing. *)
Theorem C5_single_record_is_summarized :
  let answering := fun _ : list string => Resolves (Some "S") in
  let none := stopCapture both_callbacks (render_with [])
                (POST answering []) session_start in
  let one := stopCapture both_callbacks (render_with ["A"])
               (POST answering ["A"]) session_start in
  (analysisCompleteCalls none = [no_frames_message] /\ summarizeRequests none = [])
  /\ (analysisCompleteCalls one = ["S"] /\ summarizeRequests one = [["A"]])
  /\ (Legacy.summarizeAnalyses ["A"] (POST answering ["A"]) = "A"
      /\ Legacy.calls_summarizer ["A"] = false).
Proof. by vm_compute. Qed.

End CaptureFacts.

(** ** Properties of the batch route *)

Module BatchFacts.
Import Js Batch.

Section Route.

Variable js : Engine.
Variable describe : Describer.

#[local] Abbreviation start_image := (start_image js).
#[local] Abbreviation frame_result := (frame_result js describe).
#[local] Abbreviation resolve := (resolve describe).
#[local] Abbreviation step := (step js describe).
#[local] Abbreviation exec := (exec js describe).
#[local] Abbreviation consistent := (consistent js describe).

(** *** The mapped function *)

Lemma start_image_shift (i k : nat) (img : json) :
  start_image i k img = start_image 0 (i + k) img.
Proof. done. Qed.

Lemma start_image_index (i k n : nat) (img : json) (b : string) :
  start_image i k img = InFlight n b -> n = i + k.
Proof.
  unfold Batch.start_image. intros H.
  repeat case_match; by inversion H.
Qed.

(** The promises of the batch at [i] resolve to the records of the images at
    [i], [i + 1], [i + 2]. *)
Lemma batch_resolves (imgs : list json) (i : nat) :
  resolve <$> imap (start_image i) (take concurrencyLimit (drop i imgs))
  = take concurrencyLimit (drop i (imap frame_result imgs)).
Proof.
  apply list_eq. intros k.
  rewrite list_lookup_fmap, list_lookup_imap, !lookup_take, !lookup_drop.
  rewrite list_lookup_imap. case_decide; [| done].
  by destruct (imgs !! (i + k)).
Qed.

Lemma settled_values_resolve (ps : list Promise) (rs : list string) :
  mapM settled_value ps = Some rs -> rs = resolve <$> ps.
Proof.
  rewrite mapM_Some. induction 1 as [| p v ps rs Hp _ IH]; [done |].
  destruct p; simplify_eq/=. by f_equal.
Qed.

Lemma settle_keeps_resolve (ps : list Promise) (k n : nat) (b : string) :
  ps !! k = Some (InFlight n b) ->
  resolve <$> <[k := Settled (settle_call describe n b)]> ps = resolve <$> ps.
Proof.
  intros Hk. rewrite list_fmap_insert. apply list_insert_id.
  by rewrite list_lookup_fmap, Hk.
Qed.

(** *** Steps of the handler *)

Lemma step_responded (h : Handler) (e : Event) (resp : Response) :
  phase h = Responded resp -> step h e = None.
Proof. intros H. unfold Batch.step. by rewrite H. Qed.

Lemma exec_responded (h h' : Handler) (es : list Event) (resp : Response) :
  phase h = Responded resp -> exec h es = Some h' -> h' = h.
Proof.
  intros H. destruct es as [| e es]; simpl; [congruence |].
  by rewrite (step_responded h e resp).
Qed.

Lemma exec_app (h : Handler) (es1 es2 : list Event) :
  exec h (es1 ++ es2) = exec h es1 ≫= fun h' => exec h' es2.
Proof.
  revert h. induction es1 as [| e es1 IH]; intros h; simpl; [done |].
  destruct (step h e); [apply IH | done].
Qed.

Lemma consistent_start (imgs : list json) : consistent imgs (loop_start imgs).
Proof.
  split; [done |]. split; [| done].
  intros n Hn. simpl in Hn. by apply elem_of_nil in Hn.
Qed.

Lemma new_calls_checked (imgs : list json) (i n : nat) :
  n ∈ omap call_index (imap (start_image i) (take concurrencyLimit (drop i imgs))) ->
  exists img b, imgs !! n = Some img /\ start_image 0 n img = InFlight n b.
Proof.
  rewrite list_elem_of_omap. intros (p & Hp & Hidx).
  apply list_elem_of_lookup in Hp as [k Hk].
  rewrite list_lookup_imap, lookup_take, lookup_drop in Hk.
  case_decide; [| done].
  destruct (imgs !! (i + k)) as [img |] eqn:Himg; [| done].
  injection Hk as <-.
  destruct (start_image i k img) as [| m b] eqn:Hst; [done |].
  injection Hidx as ->.
  pose proof (start_image_index _ _ _ _ _ Hst) as ->.
  exists img, b. by rewrite <- start_image_shift.
Qed.

Lemma consistent_step (imgs : list json) (h h' : Handler) (e : Event) :
  consistent imgs h -> step h e = Some h' -> consistent imgs h'.
Proof.
  intros (Himgs & Hcalls & Hphase). unfold Batch.step.
  destruct (phase h) as [| ps | resp] eqn:Hph; [| | done].
  - destruct e; [| done]. case_match; intros [= <-].
    + split; [done |]. split.
      * intros n. cbn [describerCalls]. rewrite elem_of_app, Himgs.
        intros [Hn | Hn]; [by apply Hcalls | by eapply new_calls_checked].
      * cbn [Batch.phase analyses i]. split; [done |].
        rewrite Himgs. apply batch_resolves.
    + split; [done |]. split; [done |]. cbn [Batch.phase].
      unfold in_order. f_equal. f_equal. rewrite Hphase.
      apply take_ge. rewrite length_imap, <- Himgs.
      by apply Nat.ltb_ge.
  - destruct Hphase as [Han Hres]. destruct e as [| k].
    + destruct (mapM settled_value ps) as [rs |] eqn:Hrs; intros [= <-].
      split; [done |]. split; [done |]. cbn [Batch.phase analyses i].
      apply settled_values_resolve in Hrs as ->.
      by rewrite Han, Hres, take_take_drop.
    + destruct (ps !! k) as [[| n b] |] eqn:Hk; intros [= <-].
      split; [done |]. split; [done |]. cbn [Batch.phase analyses i].
      split; [done |]. by rewrite settle_keeps_resolve.
Qed.

Lemma consistent_exec (imgs : list json) (es : list Event) (h h' : Handler) :
  consistent imgs h -> exec h es = Some h' -> consistent imgs h'.
Proof.
  revert h. induction es as [| e es IH]; intros h Hc; simpl.
  - by intros [= <-].
  - destruct (step h e) as [h1 |] eqn:Hs; [| done].
    apply IH. by eapply consistent_step.
Qed.

(** *** The width of a batch *)






(** *** Every schedule ends, and some schedule exists *)

Lemma settle_one_less (ps : list Promise) (k n : nat) (b v : string) :
  ps !! k = Some (InFlight n b) ->
  length (filter (fun p => is_in_flight p = true) (<[k := Settled v]> ps))
  < length (filter (fun p => is_in_flight p = true) ps).
Proof.
  revert k. induction ps as [| p ps IH]; intros k Hk; [done |].
  destruct k as [| k]; simpl in *.
  - injection Hk as ->. rewrite filter_cons_False by done.
    rewrite filter_cons_True by done. simpl. lia.
  - specialize (IH k Hk). rewrite !filter_cons.
    destruct (decide (is_in_flight p = true)); simpl; lia.
Qed.

Lemma step_measure (h h' : Handler) (e : Event) :
  step h e = Some h' -> measure h' < measure h.
Proof.
  unfold Batch.step, measure, in_flight.
  destruct (phase h) as [| ps | resp] eqn:Hph; [| | done].
  - destruct e; [| done]. case_match eqn:Hlt; intros [= <-]; cbn [Batch.phase]; [| lia].
    apply Nat.ltb_lt in Hlt. cbn [images i].
    match goal with |- context [filter ?P ?l] =>
      pose proof (length_filter P l) as Hf end.
    rewrite length_imap, length_take, length_drop in Hf.
    unfold concurrencyLimit in *. lia.
  - destruct e as [| k].
    + destruct (mapM settled_value ps); intros [= <-]; cbn [Batch.phase images i]. lia.
    + destruct (ps !! k) as [[| n b] |] eqn:Hk; intros [= <-].
      cbn [Batch.phase images i].
      pose proof (settle_one_less ps k n b (settle_call describe n b) Hk). lia.
Qed.

(** No schedule is longer than the measure of the state it starts in. *)
Lemma exec_bounded (es : list Event) (h h' : Handler) :
  exec h es = Some h' -> length es + measure h' <= measure h.
Proof.
  revert h. induction es as [| e es IH]; intros h; simpl.
  - intros [= <-]. lia.
  - destruct (step h e) as [h1 |] eqn:Hs; [| done].
    intros He. apply IH in He. apply step_measure in Hs. lia.
Qed.

Lemma none_in_flight_settled (ps : list Promise) :
  Forall (fun p => is_in_flight p <> true) ps -> is_Some (mapM settled_value ps).
Proof.
  intros Hall. apply mapM_is_Some. eapply Forall_impl; [apply Hall |].
  intros [v | n b] Hp; [by eexists | done].
Qed.

(** While no response has been sent, something can happen. *)
Lemma progress (h : Handler) :
  (forall resp, phase h <> Responded resp) -> exists e, is_Some (step h e).
Proof.
  intros Hnot. unfold Batch.step.
  destruct (phase h) as [| ps | resp] eqn:Hph; [| | by destruct (Hnot resp)].
  - exists Continue. by case_match.
  - destruct (list_find (fun p => is_in_flight p = true) ps) as [[k p] |] eqn:Hf.
    + apply list_find_Some in Hf as (Hk & Hp & _).
      exists (Settles k). rewrite Hk. by destruct p.
    + apply list_find_None, none_in_flight_settled in Hf as [rs Hrs].
      exists Continue. by rewrite Hrs.
Qed.

Lemma fifo_completes (n : nat) (h : Handler) :
  measure h <= n ->
  exists h' resp, exec h (fifo js describe n h) = Some h' /\ phase h' = Responded resp.
Proof.
  revert h. induction n as [| n IH]; intros h Hm.
  - unfold measure in Hm. destruct (phase h) as [| ps | resp] eqn:Hph; [lia | lia |].
    by exists h, resp.
  - cbn [fifo]. destruct (phase h) as [| ps | resp] eqn:Hph.
    + destruct (step h Continue) as [h1 |] eqn:Hs.
      * apply step_measure in Hs as Hlt.
        destruct (IH h1 ltac:(lia)) as (h' & resp & He & Hr).
        exists h', resp. by cbn [Batch.exec]; rewrite Hs.
      * unfold Batch.step in Hs. rewrite Hph in Hs. by case_match.
    + destruct (list_find (fun p => is_in_flight p = true) ps) as [[k p] |] eqn:Hf.
      * destruct (step h (Settles k)) as [h1 |] eqn:Hs.
        -- apply step_measure in Hs as Hlt.
           destruct (IH h1 ltac:(lia)) as (h' & resp & He & Hr).
           exists h', resp. by cbn [Batch.exec]; rewrite Hs.
        -- apply list_find_Some in Hf as (Hk & Hp & _).
           unfold Batch.step in Hs. rewrite Hph, Hk in Hs. by destruct p.
      * destruct (step h Continue) as [h1 |] eqn:Hs.
        -- apply step_measure in Hs as Hlt.
           destruct (IH h1 ltac:(lia)) as (h' & resp & He & Hr).
           exists h', resp. by cbn [Batch.exec]; rewrite Hs.
        -- apply list_find_None, none_in_flight_settled in Hf as [rs Hrs].
           unfold Batch.step in Hs. by rewrite Hph, Hrs in Hs.
    + by exists h, resp.
Qed.

(** *** Requests *)

Lemma enter_with_images (body : json) (imgs : list json) :
  get_field "images" body = Some (JArr imgs) -> imgs <> [] ->
  POST_enter js (Parsed body) = loop_start imgs.
Proof.
  intros Hf Hne. unfold POST_enter.
  destruct body; try done. rewrite Hf. by destruct imgs.
Qed.

(** A request with a non-empty array of images, run to its response under
    any schedule, answers 200 with the records in the order of the images. *)
Lemma completed_in_order (imgs : list json) (es : list Event) (h : Handler)
    (resp : Response) :
  exec (loop_start imgs) es = Some h -> phase h = Responded resp ->
  resp = in_order js describe imgs.
Proof.
  intros He Hr.
  destruct (consistent_exec imgs es _ h (consistent_start imgs) He) as (_ & _ & Hph).
  by rewrite Hr in Hph.
Qed.

(** The checks, read off a value that passes them. *)
Lemma prefix_nonempty (s : string) :
  String.prefix "data:image/" s = true -> s <> "".
Proof. by destruct s. Qed.

(** What the record of an image is, case by case: by the value of the image
    and, for an image that passes the checks, by what its describer call
    does. *)
Lemma frame_result_content (k : nat) (img : json) :
  (truthy img = false -> frame_result k img = invalid_format k)
  /\ (forall s, img = JStr s -> String.prefix "data:image/" s = false ->
      frame_result k img = invalid_format k)
  /\ (truthy img = true -> (forall s, img <> JStr s) ->
      frame_result k img
      = error_analyzing k (ThrowError (not_a_function_message js)))
  /\ (forall s, img = JStr s -> String.prefix "data:image/" s = true ->
      split_on "," s !! 1 = None \/ split_on "," s !! 1 = Some "" ->
      frame_result k img = extract_failed k)
  /\ (forall s b, img = JStr s -> String.prefix "data:image/" s = true ->
      split_on "," s !! 1 = Some b -> b <> "" ->
      (forall text, describe k b = Resolves (Some text) -> text <> "" ->
         frame_result k img = text)
      /\ (describe k b = Resolves None \/ describe k b = Resolves (Some "") ->
          frame_result k img = "No analysis available")
      /\ (forall e, describe k b = Rejects e ->
          frame_result k img = error_analyzing k e)).
Proof.
  assert (Htruthy : forall s, String.prefix "data:image/" s = true ->
                      truthy (JStr s) = true).
  { intros s Hp. cbn. apply negb_true_iff. apply prefix_nonempty in Hp.
    by destruct (String.eqb_spec s ""). }
  unfold Batch.frame_result, Batch.resolve, Batch.start_image, Batch.settle_call.
  cbn [Nat.add]. split; [| split; [| split; [| split]]].
  - by intros ->.
  - intros s -> Hp. rewrite Hp. by destruct (truthy (JStr s)).
  - intros Ht Hns. rewrite Ht. cbn [negb].
    destruct img as [| x | x | s | x | x]; try done. by destruct (Hns s).
  - intros s -> Hp Hsplit. rewrite Hp, (Htruthy s Hp). cbn [negb].
    by destruct Hsplit as [-> | ->].
  - intros s b -> Hp Hsplit Hb. rewrite Hp, Hsplit, (Htruthy s Hp). cbn [negb].
    destruct (String.eqb_spec b ""); [done |].
    split; [| split].
    + intros text -> Hne. cbn. by destruct (String.eqb_spec text "").
    + by intros [-> | ->].
    + by intros e ->.
Qed.

(** C2. A request whose [images] is a non-empty array can be run to its
    response, and under every schedule of the describer calls, whatever each
    call returns or throws, the response is the 200 one with as many records
    as there are images, the record at position k being the result of the
    image at position k: the invalid-format text for k if the image is
    missing or does not start with [data:image/], the error text for k with
    the engine's message if it is not a string, the extraction-failure text
    for k if nothing follows the first comma, and otherwise what the describer
    call for position k and that payload gives: its text, the no-analysis
    default if the text is missing or empty, or the error text for k with the
    thrown message. *)
Theorem C2_records_match_images (body : json) (imgs : list json) :
  get_field "images" body = Some (JArr imgs) -> imgs <> [] ->
  (exists es h out,
     exec (POST_enter js (Parsed body)) es = Some h
     /\ phase h = Responded {| status := 200; payload := AnalysesBody out |})
  /\ (forall es h resp,
        exec (POST_enter js (Parsed body)) es = Some h ->
        phase h = Responded resp ->
        exists out, resp = {| status := 200; payload := AnalysesBody out |}
          /\ length out = length imgs
          /\ forall k img, imgs !! k = Some img ->
               (truthy img = false -> out !! k = Some (invalid_format k))
               /\ (forall s, img = JStr s -> String.prefix "data:image/" s = false ->
                   out !! k = Some (invalid_format k))
               /\ (truthy img = true -> (forall s, img <> JStr s) ->
                   out !! k
                   = Some (error_analyzing k (ThrowError (not_a_function_message js))))
               /\ (forall s, img = JStr s -> String.prefix "data:image/" s = true ->
                   split_on "," s !! 1 = None \/ split_on "," s !! 1 = Some "" ->
                   out !! k = Some (extract_failed k))
               /\ (forall s b, img = JStr s -> String.prefix "data:image/" s = true ->
                   split_on "," s !! 1 = Some b -> b <> "" ->
                   (forall text, describe k b = Resolves (Some text) -> text <> "" ->
                      out !! k = Some text)
                   /\ (describe k b = Resolves None \/ describe k b = Resolves (Some "") ->
                       out !! k = Some "No analysis available")
                   /\ (forall e, describe k b = Rejects e ->
                       out !! k = Some (error_analyzing k e)))).
Proof.
  intros Hf Hne. rewrite (enter_with_images body imgs Hf Hne). split.
  - destruct (fifo_completes (measure (loop_start imgs)) (loop_start imgs))
      as (h & resp & He & Hr); [done |].
    exists (fifo js describe (measure (loop_start imgs)) (loop_start imgs)), h.
    eexists. split; [done |].
    by rewrite Hr, (completed_in_order imgs _ h resp He Hr).
  - intros es h resp He Hr.
    rewrite (completed_in_order imgs es h resp He Hr).
    eexists. split; [done |]. split; [apply length_imap |].
    intros k img Hk. rewrite list_lookup_imap, Hk. cbn [fmap option_fmap option_map].
    destruct (frame_result_content k img) as (H1 & H2 & H3 & H4 & H5).
    split; [| split; [| split; [| split]]].
    + intros Ht. by rewrite H1.
    + intros s Hs Hp. by rewrite (H2 s Hs Hp).
    + intros Ht Hns. by rewrite H3.
    + intros s Hs Hp Hsplit. by rewrite (H4 s Hs Hp Hsplit).
    + intros s b Hs Hp Hsplit Hb.
      destruct (H5 s b Hs Hp Hsplit Hb) as (Ha & Hb' & Hc).
      split; [| split].
      * intros text Hd Hne'. by rewrite (Ha text Hd Hne').
      * intros Hd. by rewrite (Hb' Hd).
      * intros e Hd. by rewrite (Hc e Hd).
Qed.


(** C10 (as the code has it). A request whose body is a JSON value other
    than [null] and has no [images] field, or an [images] that is not an
    array, or an empty array, is answered with status 400 and no describer
    call is made.  A body that is [null], or that does not parse, is answered
    with status 500, again without any describer call. *)
Theorem C10_requests_without_images_rejected
    (body : json) (es : list Event) (h : Handler) :
  body <> JNull ->
  get_field "images" body = None
  \/ (exists v, get_field "images" body = Some v /\ forall items, v <> JArr items)
  \/ get_field "images" body = Some (JArr []) ->
  exec (POST_enter js (Parsed body)) es = Some h ->
  (phase h = Responded {| status := 400; payload := ErrorBody "Images array is required" |}
   /\ describerCalls h = [])
  /\ (forall e es' h',
        exec (POST_enter js (Unparsable e)) es' = Some h'
        \/ exec (POST_enter js (Parsed JNull)) es' = Some h' ->
        exists m, phase h' = Responded {| status := 500; payload := ErrorBody m |}
                  /\ describerCalls h' = []).
Proof.
  intros Hnull Hbad He. split.
  - assert (Henter : POST_enter js (Parsed body)
                     = responded 400 (ErrorBody "Images array is required")).
    { unfold POST_enter. destruct body; try done.
      destruct Hbad as [-> | [(v & -> & Hv) | ->]]; [done | | done].
      destruct v as [| | | | items |]; try done.
      destruct items; [done | by destruct (Hv (j :: items))]. }
    rewrite Henter in He.
    by rewrite (exec_responded (responded 400 _) h es _ eq_refl He).
  - intros e es' h' [He' | He'].
    + rewrite (exec_responded (POST_enter js (Unparsable e)) h' es' _ eq_refl He').
      by eexists.
    + rewrite (exec_responded (POST_enter js (Parsed JNull)) h' es' _ eq_refl He').
      by eexists.
Qed.

End Route.

Lemma frame_result_local (js : Engine) (d d' : Describer) (j : nat) (img : json) :
  (forall b, d j b = d' j b) ->
  frame_result js d j img = frame_result js d' j img.
Proof.
  intros Hsame. unfold frame_result.
  destruct (start_image js 0 j img) as [v | n b] eqn:Hst; [done |].
  apply start_image_index in Hst as ->. unfold resolve, settle_call.
  by rewrite Hsame.
Qed.

Lemma failed_check_settled (js : Engine) (k : nat) (img : json) :
  truthy img = false
  \/ (exists s, img = JStr s /\ String.prefix "data:image/" s = false) ->
  start_image js 0 k img = Settled (invalid_format k).
Proof.
  unfold start_image. intros [-> | (s & -> & Hp)]; [done |].
  rewrite Hp. by destruct (truthy (JStr s)).
Qed.

(** C3. In a request with images, take the image at position k.  If it fails
    the check (missing, or not starting with [data:image/]) its record is the
    invalid-format text for k and no describer call is made for it; if its
    describer call throws, its record is the error text for k.  The response
    is the 200 one with all records either way, and the record of any image
    is the same under two describers that treat that image alike, however
    they treat the others and in whatever order the calls come back. *)
Theorem C3_failures_stay_in_their_slot
    (js : Engine) (d d' : Describer) (body : json) (imgs : list json)
    (es es' : list Event) (h h' : Handler) (resp resp' : Response)
    (k : nat) (img : json) :
  get_field "images" body = Some (JArr imgs) -> imgs <> [] ->
  imgs !! k = Some img ->
  exec js d (POST_enter js (Parsed body)) es = Some h ->
  phase h = Responded resp ->
  exec js d' (POST_enter js (Parsed body)) es' = Some h' ->
  phase h' = Responded resp' ->
  exists out out',
    resp = {| status := 200; payload := AnalysesBody out |}
    /\ resp' = {| status := 200; payload := AnalysesBody out' |}
    /\ length out = length imgs
    /\ (truthy img = false
        \/ (exists s, img = JStr s /\ String.prefix "data:image/" s = false) ->
        out !! k = Some (invalid_format k) /\ k ∉ describerCalls h)
    /\ (forall b e, start_image js 0 k img = InFlight k b -> d k b = Rejects e ->
        out !! k = Some (error_analyzing k e))
    /\ (forall j, (forall b, d j b = d' j b) -> out !! j = out' !! j).
Proof.
  intros Hf Hne Hk He Hr He' Hr'.
  rewrite (enter_with_images js body imgs Hf Hne) in He, He'.
  pose proof (consistent_exec js d imgs es _ h (consistent_start js d imgs) He)
    as (_ & Hcalls & _).
  rewrite (completed_in_order js d imgs es h resp He Hr).
  rewrite (completed_in_order js d' imgs es' h' resp' He' Hr').
  eexists _, _. split; [done |]. split; [done |]. split; [apply length_imap |].
  split; [| split].
  - intros Hbad. apply (failed_check_settled js k) in Hbad.
    split.
    + rewrite list_lookup_imap, Hk. simpl. unfold frame_result. by rewrite Hbad.
    + intros Hin. destruct (Hcalls k Hin) as (img' & b & Hk' & Hst).
      congruence.
  - intros b e Hst Hrej. rewrite list_lookup_imap, Hk. simpl.
    unfold frame_result, resolve, settle_call. by rewrite Hst, Hrej.
  - intros j Hsame. rewrite !list_lookup_imap.
    destruct (imgs !! j) as [img' |]; [| done]. simpl.
    by rewrite (frame_result_local js d d' j img' Hsame).
Qed.

Lemma C2_witness :
  exists out,
    phase (after v8 (failing_at 2) (POST_enter v8 (Parsed sample_body)) last_first)
    = Responded {| status := 200; payload := AnalysesBody out |}
    /\ length out = 4
    /\ out !! 0 = Some "description of AAAA"
    /\ out !! 1 = Some "Image 1 has invalid format"
    /\ out !! 2 = Some "Error analyzing image 2: timeout".
Proof.
  destruct (proj2 (C2_records_match_images v8 (failing_at 2) sample_body sample_images
                     eq_refl ltac:(discriminate))
              last_first
              (after v8 (failing_at 2) (POST_enter v8 (Parsed sample_body)) last_first)
              (in_order v8 (failing_at 2) sample_images)
              ltac:(vm_compute; reflexivity) ltac:(vm_compute; reflexivity))
    as (out & Hout & Hlen & Hk).
  exists out. split; [by rewrite <- Hout |]. split; [exact Hlen |].
  split; [| split].
  - destruct (Hk 0 (JStr "data:image/jpeg;base64,AAAA") eq_refl) as (_ & _ & _ & _ & H5).
    destruct (H5 "data:image/jpeg;base64,AAAA" "AAAA" eq_refl eq_refl eq_refl
                ltac:(discriminate)) as (Htext & _ & _).
    apply Htext; [reflexivity | discriminate].
  - destruct (Hk 1 JNull eq_refl) as (H1 & _). apply H1. reflexivity.
  - destruct (Hk 2 (JStr "data:image/jpeg;base64,BBBB") eq_refl) as (_ & _ & _ & _ & H5).
    destruct (H5 "data:image/jpeg;base64,BBBB" "BBBB" eq_refl eq_refl eq_refl
                ltac:(discriminate)) as (_ & _ & Hrej).
    apply (Hrej (ThrowError "timeout")). reflexivity.
Defined.


Lemma C10_witness :
  phase (after v8 never_failing (POST_enter v8 (Parsed (JObj [("images", JArr [])]))) [])
  = Responded {| status := 400; payload := ErrorBody "Images array is required" |}
  /\ describerCalls
       (after v8 never_failing (POST_enter v8 (Parsed (JObj [("images", JArr [])]))) [])
     = [].
Proof.
  apply (C10_requests_without_images_rejected v8 never_failing
           (JObj [("images", JArr [])]) []);
    [discriminate | right; right; reflexivity | reflexivity].
Defined.

(** Against C10 as the specification words it: a body that is JSON [null]
    has no [images] field, and the answer is status 500, not 400. *)
Lemma C10_counterexample :
  get_field "images" JNull = None
  /\ phase (POST_enter v8 (Parsed JNull))
     = Responded {| status := 500;
                    payload := ErrorBody (failed_message
                                 (ThrowError (destructure_null_message v8))) |}
  /\ 500 <> 400.
Proof. repeat split. lia. Qed.

Lemma C3_witness :
  exists out out',
    Responded {| status := 200;
                 payload := AnalysesBody (imap (frame_result v8 (failing_at 2)) sample_images) |}
    = Responded {| status := 200; payload := AnalysesBody out |}
    /\ Responded {| status := 200;
                    payload := AnalysesBody (imap (frame_result v8 never_failing) sample_images) |}
       = Responded {| status := 200; payload := AnalysesBody out' |}
    /\ out !! 1 = Some (invalid_format 1)
    /\ out !! 0 = out' !! 0.
Proof.
  destruct (C3_failures_stay_in_their_slot v8 (failing_at 2) never_failing
              sample_body sample_images last_first first_last
              (after v8 (failing_at 2) (POST_enter v8 (Parsed sample_body)) last_first)
              (after v8 never_failing (POST_enter v8 (Parsed sample_body)) first_last)
              (in_order v8 (failing_at 2) sample_images)
              (in_order v8 never_failing sample_images)
              1 JNull)
    as (out & out' & Hr & Hr' & _ & Hbad & _ & Hsame);
    [reflexivity | discriminate | reflexivity | vm_compute; reflexivity
     | vm_compute; reflexivity | vm_compute; reflexivity | vm_compute; reflexivity |].
  exists out, out'.
  split; [exact (f_equal Responded Hr) |]. split; [exact (f_equal Responded Hr') |].
  split; [apply Hbad; by left | apply Hsame; reflexivity].
Defined.

End BatchFacts.

(** ** Further properties of the capture hook *)

Module CaptureMoreFacts.
Import Js Summarize Capture CaptureMore CaptureFacts.

(** *** The hash as a polynomial *)

Lemma to_int32_unwrap (a : Z) : exists k, to_int32 a = (a + k * 4294967296)%Z.
Proof.
  exists (- ((a + 2147483648) / 4294967296))%Z. unfold to_int32.
  change (2 ^ 31)%Z with 2147483648%Z. change (2 ^ 32)%Z with 4294967296%Z.
  rewrite Z.mod_eq by lia. lia.
Qed.

Lemma to_int32_shift (a k : Z) : to_int32 (a + k * 4294967296) = to_int32 a.
Proof.
  unfold to_int32. change (2 ^ 32)%Z with 4294967296%Z.
  replace (a + k * 4294967296 + 2 ^ 31)%Z with (a + 2 ^ 31 + k * 4294967296)%Z by lia.
  by rewrite Z_mod_plus_full.
Qed.

Lemma hash_step_poly (hash char : Z) :
  hash_step hash char = to_int32 (poly_step hash char).
Proof.
  rewrite hash_step_wraps. unfold shl32, poly_step.
  rewrite Z.shiftl_mul_pow2 by lia. change (2 ^ 5)%Z with 32%Z.
  destruct (to_int32_unwrap hash) as [k1 ->].
  destruct (to_int32_unwrap ((hash + k1 * 4294967296) * 32)) as [k2 ->].
  rewrite <- (to_int32_shift (31 * hash + char) (32 * k1 + k2)).
  f_equal. lia.
Qed.

Lemma poly_step_wrapped (acc char : Z) :
  to_int32 (poly_step (to_int32 acc) char) = to_int32 (poly_step acc char).
Proof.
  unfold poly_step. destruct (to_int32_unwrap acc) as [k ->].
  rewrite <- (to_int32_shift (31 * acc + char) (31 * k)). f_equal. lia.
Qed.

Lemma fold_hash_poly (codes : list Z) (hash acc : Z) :
  hash = to_int32 acc ->
  fold_left hash_step codes hash = to_int32 (fold_left poly_step codes acc).
Proof.
  revert hash acc. induction codes as [| c codes IH]; intros hash acc ->; [done |].
  simpl. apply IH. by rewrite hash_step_poly, poly_step_wrapped.
Qed.

(** The shifts and masks of [simpleHash] compute the polynomial hash with
    multiplier 31 over the character codes, wrapped to a signed 32-bit
    integer; the running hash never leaves that range. *)
Theorem simpleHash_is_wrapped_polynomial (str : string) :
  simpleHash str = toString16 (to_int32 (poly31 (charCodes str)))
  /\ (- 2 ^ 31 <= fold_left hash_step (charCodes str) 0 < 2 ^ 31)%Z.
Proof.
  unfold simpleHash, poly31.
  rewrite (fold_hash_poly (charCodes str) 0 0) by done.
  split; [done | apply to_int32_range].
Qed.

Lemma charCodes_app (a b : string) : charCodes (a +:+ b) = charCodes a ++ charCodes b.
Proof.
  induction a as [| x a IH]; [done |].
  change (charCodes (String x (a +:+ b))
          = Z.of_nat (nat_of_ascii x) :: (charCodes a ++ charCodes b)).
  unfold charCodes in *. cbn [list_ascii_of_string map]. by rewrite IH.
Qed.

Lemma Aa_BB_alike (hash : Z) :
  fold_left hash_step (charCodes "Aa") hash = fold_left hash_step (charCodes "BB") hash.
Proof.
  change (charCodes "Aa") with [65; 97]%Z. change (charCodes "BB") with [66; 66]%Z.
  cbn [fold_left]. rewrite !hash_step_poly, !poly_step_wrapped. f_equal.
  unfold poly_step. lia.
Qed.

(** The hash does not tell every change: a screenshot in which some [Aa] is
    replaced by [BB] has the same hash, so the differ, holding the first in
    a non-empty buffer, drops the second as unchanged. *)
Theorem changed_frame_can_hash_alike
    (p : Props) (r : Render) (s : Session) (before after : string) :
  captureIntervalRef s <> None -> frameBufferRef s <> [] ->
  lastFrameHashRef s = simpleHash (before +:+ "Aa" +:+ after) ->
  simpleHash (before +:+ "Aa" +:+ after) = simpleHash (before +:+ "BB" +:+ after)
  /\ step p r s (EvTick (Screenshot (before +:+ "BB" +:+ after))) = s.
Proof.
  intros Hlive Hbuf Hlast.
  assert (Hsame : simpleHash (before +:+ "Aa" +:+ after)
                  = simpleHash (before +:+ "BB" +:+ after)).
  { unfold simpleHash. rewrite !charCodes_app, !fold_left_app. by rewrite Aa_BB_alike. }
  split; [exact Hsame |].
  rewrite step_tick by done.
  apply tick_dropped.
  - destruct before; discriminate.
  - apply keeps_false_iff. by rewrite Hlast, Hsame.
Qed.

Lemma changed_frame_can_hash_alike_witness :
  simpleHash ("data:" +:+ "Aa" +:+ "x") = simpleHash ("data:" +:+ "BB" +:+ "x")
  /\ step both_callbacks first_render
       (run both_callbacks first_render session_start (frames ["data:Aax"]))
       (EvTick (Screenshot ("data:" +:+ "BB" +:+ "x")))
     = run both_callbacks first_render session_start (frames ["data:Aax"]).
Proof.
  apply (changed_frame_can_hash_alike both_callbacks first_render
           (run both_callbacks first_render session_start (frames ["data:Aax"]))
           "data:" "x");
    [vm_compute; discriminate | vm_compute; discriminate | vm_compute; reflexivity].
Defined.

(** *** What the events do to the held frames and the reported counts *)

Lemma stopCapture_held (p : Props) (r : Render) (reply : SummarizeReply) (s : Session) :
  held (stopCapture p r reply s) = held s.
Proof. exact (processFrameBuffer_held s). Qed.

Lemma step_cases (p : Props) (r : Render) (s : Session) (e : Event) :
  (held (step p r s e) = held s
   /\ frameCaptureCalls (step p r s e) = frameCaptureCalls s)
  \/ (exists shot, shot_of e = Some shot
      /\ held (step p r s e) = held s ++ [shot]
      /\ frameCaptureCalls (step p r s e)
         = frameCaptureCalls s
           ++ (if onFrameCapture p then [r_captureCount r + 1] else [])).
Proof.
  destruct e as [shot |]; cbn [step].
  - destruct (captureIntervalRef s); [| by left].
    destruct shot as [reply | | shot].
    + left. cbn [intervalTick]. split; [apply stopCapture_held |].
      unfold stopCapture. cbn [frameCaptureCalls]. apply processFrameBuffer_fields.
    + by left.
    + destruct (decide (shot = "")) as [-> | Hne]; [by left |].
      rewrite tick_screenshot by done.
      destruct (keeps s (simpleHash shot)); [| by left].
      right. exists shot. split; [done |].
      destruct (flush_if_full_fields (keep_frame p r shot (simpleHash shot) s))
        as (-> & _ & _ & _ & ->).
      split; [apply keep_frame_held |].
      cbn [keep_frame frameCaptureCalls].
      destruct (onFrameCapture p); [done | by rewrite app_nil_r].
  - left. rewrite bufferTimerTick_flushes.
    split; [apply processFrameBuffer_held | apply processFrameBuffer_fields].
Qed.

Lemma shots_of_cons (e : Event) (es : list Event) :
  shots_of (e :: es)
  = match shot_of e with
    | Some shot => shot :: shots_of es
    | None => shots_of es
    end.
Proof. done. Qed.

Lemma run_cases (p : Props) (r : Render) (es : list Event) (s : Session) :
  exists kept,
    kept `sublist_of` shots_of es
    /\ held (run p r s es) = held s ++ kept
    /\ frameCaptureCalls (run p r s es)
       = frameCaptureCalls s
         ++ (if onFrameCapture p then replicate (length kept) (r_captureCount r + 1)
             else []).
Proof.
  revert s. induction es as [| e es IH]; intros s.
  - exists []. split; [constructor |]. split; [by rewrite app_nil_r |].
    change (run p r s []) with s. by destruct (onFrameCapture p); rewrite app_nil_r.
  - rewrite run_cons. destruct (IH (step p r s e)) as (kept & Hsub & Hheld & Hcalls).
    destruct (step_cases p r s e) as [[Hh Hc] | (shot & Hshot & Hh & Hc)].
    + exists kept. rewrite Hheld, Hcalls, Hh, Hc. split; [| done].
      rewrite shots_of_cons. destruct (shot_of e); [by apply sublist_cons | done].
    + exists (shot :: kept). rewrite Hheld, Hcalls, Hh, Hc, <- !app_assoc.
      split; [| split; [done |]].
      * rewrite shots_of_cons, Hshot. by apply sublist_skip.
      * by destruct (onFrameCapture p).
Qed.

(** The frames posted for analysis, in the order of posting, are a
    subsequence of the screenshots offered: none is invented, repeated or
    reordered.  Flushes lose nothing, and after [stopCapture] every kept
    frame has been posted and the buffer is empty. *)
Theorem kept_frames_all_posted_in_order
    (p : Props) (r : Render) (s : Session) (es : list Event) (reply : SummarizeReply) :
  exists kept,
    kept `sublist_of` shots_of es
    /\ held (run p r s es) = held s ++ kept
    /\ concat (batchRequests (stopCapture p r reply (run p r s es))) = held s ++ kept
    /\ frameBufferRef (stopCapture p r reply (run p r s es)) = [].
Proof.
  destruct (run_cases p r es s) as (kept & Hsub & Hheld & _).
  exists kept. split; [done |]. split; [done |].
  assert (Hb : frameBufferRef (stopCapture p r reply (run p r s es)) = []).
  { unfold stopCapture, processFrameBuffer. cbn [frameBufferRef].
    by destruct (frameBufferRef (run p r s es)) eqn:E; [rewrite E |]. }
  split; [| done].
  rewrite <- Hheld, <- (stopCapture_held p r reply (run p r s es)).
  unfold held. by rewrite Hb, app_nil_r.
Qed.

(** With [onFrameCapture] passed, the observers are called once per kept
    frame, each time with the count of the starting render plus one. *)
Theorem one_report_per_kept_frame
    (p : Props) (r : Render) (s : Session) (es : list Event) :
  onFrameCapture p = true ->
  exists kept,
    held (run p r s es) = held s ++ kept
    /\ frameCaptureCalls (run p r s es)
       = frameCaptureCalls s ++ replicate (length kept) (r_captureCount r + 1).
Proof.
  intros Hcb. destruct (run_cases p r es s) as (kept & _ & Hheld & Hcalls).
  exists kept. by rewrite Hcb in Hcalls.
Qed.

Lemma one_report_per_kept_frame_witness :
  exists kept,
    held (run both_callbacks first_render session_start (frames ["a"; "a"; "b"]))
    = held session_start ++ kept
    /\ frameCaptureCalls (run both_callbacks first_render session_start
                            (frames ["a"; "a"; "b"]))
       = frameCaptureCalls session_start ++ replicate (length kept) (0 + 1).
Proof.
  apply (one_report_per_kept_frame both_callbacks first_render session_start
           (frames ["a"; "a"; "b"])).
  reflexivity.
Defined.

(** *** Batch sizes *)

Lemma processFrameBuffer_tidy (s : Session) :
  length (frameBufferRef s) <= 5 ->
  Forall (fun batch : list string => 1 <= length batch <= 5) (batchRequests s) ->
  tidy (processFrameBuffer s).
Proof.
  intros Hlen Hall. unfold processFrameBuffer.
  destruct (frameBufferRef s) as [| x buffer] eqn:E.
  - split; [rewrite E; simpl; lia | done].
  - split; [simpl; lia |]. cbn [batchRequests].
    apply Forall_app. split; [done |]. apply Forall_singleton. simpl in *. lia.
Qed.

Lemma step_tidy (p : Props) (r : Render) (s : Session) (e : Event) :
  tidy s -> tidy (step p r s e).
Proof.
  intros [Hlen Hall]. destruct e as [shot |]; cbn [step].
  - destruct (captureIntervalRef s); [| done].
    destruct shot as [reply | | shot]; [| done |].
    + cbn [intervalTick].
      destruct (processFrameBuffer_tidy s ltac:(lia) Hall) as [Hl Ha].
      by split.
    + destruct (decide (shot = "")) as [-> | Hne]; [done |].
      rewrite tick_screenshot by done.
      destruct (keeps s (simpleHash shot)); [| done].
      unfold flush_if_full.
      destruct (Nat.leb_spec 5
                  (length (frameBufferRef (keep_frame p r shot (simpleHash shot) s))))
        as [Hfull | Hroom].
      * apply processFrameBuffer_tidy; [| done].
        cbn [keep_frame frameBufferRef]. rewrite length_app. simpl. lia.
      * split; [lia | done].
  - rewrite bufferTimerTick_flushes. apply processFrameBuffer_tidy; [lia | done].
Qed.

(** Between events the buffer holds at most four frames, and every batch
    posted to the batch route has at least one and at most five. *)
Theorem batches_hold_one_to_five
    (p : Props) (r : Render) (s : Session) (es : list Event) :
  tidy s -> tidy (run p r s es).
Proof.
  revert s. induction es as [| e es IH]; intros s Ht; [done |].
  rewrite run_cons. by apply IH, step_tidy.
Qed.

Lemma batches_hold_one_to_five_witness :
  tidy (run both_callbacks first_render session_start
          (frames ["a"; "b"; "c"; "d"; "e"; "f"] ++ [EvBufferTimer])).
Proof.
  apply (batches_hold_one_to_five both_callbacks first_render session_start).
  split; [simpl; lia | constructor].
Defined.

(** *** The end of a session *)

(** Once [stopCapture] has run, no timer event changes anything: the capture
    interval is cleared and the buffer timer finds an empty buffer. *)
Theorem nothing_happens_after_stop
    (p : Props) (r : Render) (reply : SummarizeReply) (s : Session) (es : list Event) :
  run p r (stopCapture p r reply s) es = stopCapture p r reply s.
Proof.
  assert (Hb : frameBufferRef (stopCapture p r reply s) = []).
  { unfold stopCapture, processFrameBuffer. cbn [frameBufferRef].
    by destruct (frameBufferRef s) eqn:E; [rewrite E |]. }
  induction es as [| e es IH]; [done |].
  rewrite run_cons. rewrite <- IH at 2. f_equal.
  destruct e as [shot |]; [done |].
  cbn [step]. unfold bufferTimerTick. by rewrite Hb.
Qed.

Lemma or_default_nonempty (x : option string) (dflt : string) :
  dflt <> "" -> or_default x dflt <> "".
Proof.
  intros Hd. unfold or_default. destruct x as [s |]; [| done].
  by destruct (String.eqb_spec s "").
Qed.

Lemma stop_message_nonempty (analyses : list string) (reply : SummarizeReply) :
  stop_message analyses reply <> "".
Proof.
  unfold stop_message. destruct analyses; [done |].
  destruct reply as [e | status summary]; [done |].
  destruct (status_ok status); [by apply or_default_nonempty | done].
Qed.

(** With [onAnalysisComplete] passed, [stopCapture] hands over exactly one
    message, and that message is never empty, whatever the summarize request
    comes back with. *)
Theorem stop_delivers_one_message
    (p : Props) (r : Render) (reply : SummarizeReply) (s : Session) :
  onAnalysisComplete p = true ->
  exists m, m <> ""
    /\ analysisCompleteCalls (stopCapture p r reply s) = analysisCompleteCalls s ++ [m].
Proof.
  intros Hcb. exists (stop_message (r_analyses r) reply).
  split; [apply stop_message_nonempty |].
  unfold stopCapture. cbn [analysisCompleteCalls]. rewrite Hcb. f_equal.
  unfold processFrameBuffer. by destruct (frameBufferRef s).
Qed.

Lemma stop_delivers_one_message_witness :
  exists m, m <> ""
    /\ analysisCompleteCalls
         (stopCapture both_callbacks (render_with ["A"; "B"]) (Reply 503 None) session_start)
       = analysisCompleteCalls session_start ++ [m].
Proof.
  apply (stop_delivers_one_message both_callbacks (render_with ["A"; "B"])
           (Reply 503 None) session_start).
  reflexivity.
Defined.

End CaptureMoreFacts.

(** ** Properties of the summarize route *)

Module SummarizeFacts.
Import Js Summarize Capture SummarizeRoute CaptureMoreFacts.
Import Batch (json, JNull, JBool, JNum, JStr, JArr, JObj, Body, Unparsable, Parsed,
              get_field).

(** On the bodies the hook sends, the route on parsed JSON is the route of
    [Summarize]: posting [{ analyses }] and reading status and summary off
    the response gives what [Summarize.POST] gives for the list itself. *)
Theorem hook_bodies_reach_the_model
    (null_message : string) (model : list json -> ModelOutcome) (analyses : list string) :
  reply_of (fst (SummarizeRoute.POST null_message model (Parsed (request_body analyses))))
  = Summarize.POST (fun texts => model (JStr <$> texts)) analyses.
Proof.
  destruct analyses as [| a rest]; [done |].
  unfold SummarizeRoute.POST, Summarize.POST, request_body. cbn.
  by destruct (model (JStr a :: (JStr <$> rest))).
Qed.

(** The route calls the model at most once, and only for a non-empty
    [analyses] array: every 400 is answered without a call, and a 200 carries
    the text the model returned for exactly that array. *)
Theorem summarize_calls_model_once_if_at_all
    (null_message : string) (model : list json -> ModelOutcome) (req : Body) :
  length (snd (SummarizeRoute.POST null_message model req)) <= 1
  /\ (summary_status (fst (SummarizeRoute.POST null_message model req)) = 400 ->
      snd (SummarizeRoute.POST null_message model req) = [])
  /\ (summary_status (fst (SummarizeRoute.POST null_message model req)) = 200 ->
      exists body items content,
        req = Parsed body
        /\ get_field "analyses" body = Some (JArr items) /\ items <> []
        /\ model items = Resolves content
        /\ SummarizeRoute.POST null_message model req
           = ({| summary_status := 200; summary_payload := SummaryBody content |},
              [items])).
Proof.
  unfold SummarizeRoute.POST. destruct req as [e | body].
  { cbn. split; [lia |]. split; [done | discriminate]. }
  destruct body as [| b | n | str | items | fields];
    try (cbn; split; [lia |]; split; [done | discriminate]).
  destruct (get_field "analyses" (JObj fields))
    as [[| | | | [| first rest] |] |] eqn:Hf;
    cbn; try (split; [lia |]; split; [done | discriminate]).
  destruct (model (first :: rest)) as [content | e] eqn:Hm; cbn.
  - split; [lia |]. split; [discriminate |]. intros _.
    by exists (JObj fields), (first :: rest), content.
  - split; [lia |]. split; discriminate.
Qed.

Lemma summarize_calls_model_once_if_at_all_witness :
  exists body items content,
    Parsed (request_body ["A"; "B"]) = Parsed body
    /\ get_field "analyses" body = Some (JArr items) /\ items <> []
    /\ (fun _ : list json => Resolves (Some "S")) items = Resolves content
    /\ SummarizeRoute.POST "null" (fun _ => Resolves (Some "S"))
         (Parsed (request_body ["A"; "B"]))
       = ({| summary_status := 200; summary_payload := SummaryBody content |}, [items]).
Proof.
  apply (summarize_calls_model_once_if_at_all "null" (fun _ => Resolves (Some "S"))
           (Parsed (request_body ["A"; "B"]))).
  reflexivity.
Defined.

(** The hook and the route together: with [onAnalysisComplete] passed and at
    least one record, [stopCapture] posts the records, the route calls the
    model once on them, and the message handed over is the model's text, the
    no-summary default if that text is missing or empty, or the count-only
    note if the model throws. *)
Theorem stop_through_the_route
    (p : Props) (r : Render) (s : Session) (null_message : string)
    (model : list json -> ModelOutcome) :
  onAnalysisComplete p = true -> r_analyses r <> [] ->
  snd (SummarizeRoute.POST null_message model (Parsed (request_body (r_analyses r))))
  = [JStr <$> r_analyses r]
  /\ analysisCompleteCalls
       (stopCapture p r
          (reply_of (fst (SummarizeRoute.POST null_message model
                            (Parsed (request_body (r_analyses r)))))) s)
     = analysisCompleteCalls s
       ++ [match model (JStr <$> r_analyses r) with
           | Resolves content => or_default content "No summary available"
           | Rejects _ =>
             "Failed to summarize analyses. Captured "
             +:+ pretty (length (r_analyses r)) +:+ " frames."
           end].
Proof.
  intros Hcb Hne. rewrite hook_bodies_reach_the_model.
  destruct (r_analyses r) as [| a rest] eqn:Ha; [done |].
  unfold stopCapture. cbn [analysisCompleteCalls]. rewrite Hcb, Ha.
  unfold SummarizeRoute.POST, Summarize.POST, request_body, stop_message. cbn.
  assert (Hcalls : analysisCompleteCalls (processFrameBuffer s) = analysisCompleteCalls s).
  { unfold processFrameBuffer. by destruct (frameBufferRef s). }
  rewrite Hcalls.
  by destruct (model (JStr a :: (JStr <$> rest))).
Qed.

Lemma stop_through_the_route_witness :
  analysisCompleteCalls
    (stopCapture both_callbacks (render_with ["A"; "B"])
       (reply_of (fst (SummarizeRoute.POST "null" (fun _ => Resolves (Some "S"))
                         (Parsed (request_body ["A"; "B"]))))) session_start)
  = ["S"].
Proof.
  apply (stop_through_the_route both_callbacks (render_with ["A"; "B"]) session_start
           "null" (fun _ => Resolves (Some "S")));
    [reflexivity | discriminate].
Defined.

End SummarizeFacts.

(** ** Further properties of the batch route *)

Module BatchMoreFacts.
Import Js Batch BatchClient BatchFacts.

(** *** Which images reach the describer *)

Lemma start_image_next (js : Engine) (j k : nat) (img : json) :
  start_image js j (S k) img = start_image js (S j) k img.
Proof. unfold start_image. by replace (j + S k) with (S j + k) by lia. Qed.

Lemma wanted_calls_ascending (js : Engine) (imgs : list json) (j : nat) :
  omap call_index (imap (start_image js j) imgs) `sublist_of` seq j (length imgs).
Proof.
  revert j. induction imgs as [| img imgs IH]; intros j; [done |].
  rewrite imap_cons. cbn [omap length seq].
  rewrite (imap_ext (start_image js j ∘ S) (start_image js (S j)))
    by (intros; apply start_image_next).
  destruct (start_image js j 0 img) as [v | n b] eqn:Hst; cbn [call_index].
  - apply sublist_cons, IH.
  - apply start_image_index in Hst as ->. rewrite Nat.add_0_r.
    apply sublist_skip, IH.
Qed.

Lemma wanted_calls_next_batch (js : Engine) (imgs : list json) (i : nat) :
  i <= length imgs ->
  wanted_calls js (take i imgs)
  ++ omap call_index (imap (start_image js i) (take concurrencyLimit (drop i imgs)))
  = wanted_calls js (take (i + concurrencyLimit) imgs).
Proof.
  intros Hi. unfold wanted_calls.
  rewrite <- (take_take_drop imgs i concurrencyLimit), imap_app, omap_app.
  rewrite length_take, Nat.min_l by done. done.
Qed.

Lemma wanted_calls_member (js : Engine) (imgs : list json) (k : nat) :
  k ∈ wanted_calls js imgs
  <-> exists img b, imgs !! k = Some img /\ start_image js 0 k img = InFlight k b.
Proof.
  unfold wanted_calls. rewrite list_elem_of_omap. split.
  - intros (p & Hp & Hidx). apply list_elem_of_lookup in Hp as [j Hj].
    rewrite list_lookup_imap in Hj.
    destruct (imgs !! j) as [img |] eqn:Himg; [| done].
    injection Hj as <-.
    destruct (start_image js 0 j img) as [| n b] eqn:Hst; [done |].
    injection Hidx as ->. apply start_image_index in Hst as Hk.
    simpl in Hk. subst j. by exists img, b.
  - intros (img & b & Himg & Hst). exists (InFlight k b). split; [| done].
    apply list_elem_of_lookup. exists k. by rewrite list_lookup_imap, Himg, <- Hst.
Qed.

Section Route.

Variable js : Engine.
Variable describe : Describer.

Lemma calls_tracked_start (imgs : list json) : calls_tracked js imgs (loop_start imgs).
Proof. split; [done |]. cbn. by rewrite take_0. Qed.

Lemma calls_tracked_step (imgs : list json) (h h' : Handler) (e : Event) :
  calls_tracked js imgs h -> step js describe h e = Some h' -> calls_tracked js imgs h'.
Proof.
  intros (Himgs & Hphase). unfold step.
  destruct (phase h) as [| ps | resp] eqn:Hph; [| | done].
  - destruct e; [| done]. case_match eqn:Hlt; intros [= <-].
    + apply Nat.ltb_lt in Hlt. rewrite Himgs in Hlt.
      split; [done |]. cbn [phase describerCalls i]. split; [done |].
      rewrite Hphase, Himgs. apply wanted_calls_next_batch. lia.
    + apply Nat.ltb_ge in Hlt. rewrite Himgs in Hlt.
      split; [done |]. cbn [phase describerCalls]. by rewrite Hphase, take_ge.
  - destruct Hphase as [Hi Hcalls]. destruct e as [| k].
    + by destruct (mapM settled_value ps); intros [= <-].
    + by destruct (ps !! k) as [[| n b] |]; intros [= <-].
Qed.

Lemma calls_tracked_exec (imgs : list json) (es : list Event) (h h' : Handler) :
  calls_tracked js imgs h -> exec js describe h es = Some h' -> calls_tracked js imgs h'.
Proof.
  revert h. induction es as [| e es IH]; intros h Hc; simpl.
  - by intros [= <-].
  - destruct (step js describe h e) as [h1 |] eqn:Hs; [| done].
    apply IH. by eapply calls_tracked_step.
Qed.

(** The checks spelled out: a call is issued exactly for a non-empty string
    that starts with [data:image/] and has a non-empty part after its first
    comma, and it carries that part. *)
Lemma start_image_checks (i k n : nat) (img : json) (b : string) :
  start_image js i k img = InFlight n b
  <-> n = i + k
      /\ exists s, img = JStr s /\ s <> ""
           /\ String.prefix "data:image/" s = true
           /\ split_on "," s !! 1 = Some b /\ b <> "".
Proof.
  unfold start_image. split.
  - intros H.
    destruct (truthy img) eqn:Ht; cbn [negb] in H; [| done].
    destruct img as [| x | x | s | x | x]; try done.
    destruct (String.prefix "data:image/" s) eqn:Hp; cbn [negb] in H; [| done].
    destruct (split_on "," s !! 1) as [b' |] eqn:Hs; [| done].
    destruct (String.eqb_spec b' "") as [| Hb]; [done |].
    injection H as <- <-. split; [done |]. exists s.
    split; [done |]. split; [| done].
    cbn in Ht. apply negb_true_iff in Ht. by destruct (String.eqb_spec s "").
  - intros (-> & s & -> & Hne & Hp & Hs & Hb).
    assert (Ht : truthy (JStr s) = true).
    { cbn. apply negb_true_iff. by destruct (String.eqb_spec s ""). }
    rewrite Ht, Hp, Hs. cbn [negb]. by destruct (String.eqb_spec b "").
Qed.

(** By the time the response is sent the describer has been called exactly
    for the images that pass both checks, that is, the non-empty strings that
    start with [data:image/] and have a non-empty part after the first comma:
    once each, in the order of the images, and for no other. *)
Theorem one_call_per_checked_image
    (body : json) (imgs : list json) (es : list Event) (h : Handler) (resp : Response) :
  get_field "images" body = Some (JArr imgs) -> imgs <> [] ->
  exec js describe (POST_enter js (Parsed body)) es = Some h ->
  phase h = Responded resp ->
  NoDup (describerCalls h)
  /\ describerCalls h `sublist_of` seq 0 (length imgs)
  /\ forall k, k ∈ describerCalls h
       <-> exists s base64Image,
             imgs !! k = Some (JStr s) /\ s <> ""
             /\ String.prefix "data:image/" s = true
             /\ split_on "," s !! 1 = Some base64Image /\ base64Image <> "".
Proof.
  intros Hf Hne He Hr. rewrite (enter_with_images js body imgs Hf Hne) in He.
  destruct (calls_tracked_exec imgs es _ h (calls_tracked_start imgs) He) as [_ Hc].
  rewrite Hr in Hc. rewrite Hc.
  pose proof (wanted_calls_ascending js imgs 0) as Hsub.
  split; [| split; [done |]].
  - eapply sublist_NoDup; [apply NoDup_seq | exact Hsub].
  - intros k. rewrite wanted_calls_member. split.
    + intros (img & b & Hk & Hst).
      apply start_image_checks in Hst as (_ & s & -> & Hs & Hp & Hsplit & Hb).
      by exists s, b.
    + intros (s & b & Hk & Hs & Hp & Hsplit & Hb).
      exists (JStr s), b. split; [done |]. apply start_image_checks.
      split; [done |]. by exists s.
Qed.

(** A request cannot hang: a run over n images has at most 6n + 1 steps,
    and as long as no response has been sent some step is possible. *)
Theorem handler_always_responds
    (body : json) (imgs : list json) (es : list Event) (h : Handler) :
  get_field "images" body = Some (JArr imgs) -> imgs <> [] ->
  exec js describe (POST_enter js (Parsed body)) es = Some h ->
  length es <= 6 * length imgs + 1
  /\ ((forall resp, phase h <> Responded resp) ->
      exists e, is_Some (step js describe h e)).
Proof.
  intros Hf Hne He. rewrite (enter_with_images js body imgs Hf Hne) in He.
  split; [| apply progress].
  apply exec_bounded in He. unfold measure at 2 in He. cbn in He. lia.
Qed.

End Route.

Lemma one_call_per_checked_image_witness :
  2 ∈ describerCalls (after v8 (failing_at 2) (POST_enter v8 (Parsed sample_body))
                        last_first)
  /\ 1 ∉ describerCalls (after v8 (failing_at 2) (POST_enter v8 (Parsed sample_body))
                          last_first).
Proof.
  destruct (one_call_per_checked_image v8 (failing_at 2) sample_body sample_images
              last_first
              (after v8 (failing_at 2) (POST_enter v8 (Parsed sample_body)) last_first)
              (in_order v8 (failing_at 2) sample_images)
              eq_refl ltac:(discriminate)
              ltac:(vm_compute; reflexivity) ltac:(vm_compute; reflexivity))
    as (_ & _ & Hiff).
  split.
  - apply Hiff. exists "data:image/jpeg;base64,BBBB", "BBBB".
    split; [reflexivity |]. split; [discriminate |]. split; [reflexivity |].
    split; [reflexivity | discriminate].
  - intros Hin. apply Hiff in Hin as (s & b & Hk & _). discriminate Hk.
Defined.

Lemma handler_always_responds_witness :
  length [Continue; Settles 2] <= 6 * length sample_images + 1.
Proof.
  apply (handler_always_responds v8 (failing_at 2) sample_body sample_images
           [Continue; Settles 2]
           (after v8 (failing_at 2) (POST_enter v8 (Parsed sample_body))
              [Continue; Settles 2]));
    [reflexivity | discriminate | vm_compute; reflexivity].
Defined.

(** *** Screenshots as the hook posts them *)

Lemma split_on_comma_free (s : string) :
  comma_free s = true -> split_on "," s = [s].
Proof.
  induction s as [| c s IH]; [done |]. cbn [comma_free split_on].
  rewrite andb_true_iff, negb_true_iff. intros [Hc Hs].
  by rewrite Hc, (IH Hs).
Qed.

Lemma split_on_first (a rest : string) :
  comma_free a = true -> split_on "," (a +:+ "," +:+ rest) = a :: split_on "," rest.
Proof.
  induction a as [| c a IH].
  - intros _. change ("" +:+ "," +:+ rest) with (String "," rest). done.
  - cbn [comma_free]. rewrite andb_true_iff, negb_true_iff. intros [Hc Ha].
    change (String c a +:+ "," +:+ rest) with (String c (a +:+ "," +:+ rest)).
    cbn [split_on]. by rewrite Hc, (IH Ha).
Qed.

Lemma prefix_empty (s : string) : String.prefix "" s = true.
Proof. by destruct s. Qed.

(** A data URL of an image whose media type and payload hold no comma, with
    a payload that is not empty, passes both checks of the batch route, and
    the describer is called with exactly the payload.  The screenshots the
    hook takes, [canvas.toDataURL('image/jpeg', 0.8)], have this form. *)
Theorem data_urls_reach_the_describer
    (js : Engine) (i k : nat) (subtype payload : string) :
  comma_free subtype = true -> comma_free payload = true -> payload <> "" ->
  start_image js i k (JStr (data_url ("image/" +:+ subtype) payload))
  = InFlight (i + k) payload.
Proof.
  intros Hsub Hpay Hne. unfold start_image, data_url.
  change ("data:" +:+ ("image/" +:+ subtype) +:+ "," +:+ payload)
    with ("data:image/" +:+ subtype +:+ "," +:+ payload).
  assert (Hpre : String.prefix "data:image/"
                   ("data:image/" +:+ subtype +:+ "," +:+ payload) = true).
  { change ("data:image/" +:+ subtype +:+ "," +:+ payload)
      with (String "d" (String "a" (String "t" (String "a" (String ":"
             (String "i" (String "m" (String "a" (String "g" (String "e"
             (String "/" (subtype +:+ "," +:+ payload)))))))))))).
    cbn [String.prefix]. repeat (destruct (ascii_dec _ _); [| done]).
    apply prefix_empty. }
  rewrite Hpre.
  change (truthy (JStr ("data:image/" +:+ subtype +:+ "," +:+ payload))) with true.
  cbn [negb].
  assert (Hsplit : split_on "," ("data:image/" +:+ subtype +:+ "," +:+ payload)
                   = ("data:image/" +:+ subtype) :: [payload]).
  { change ("data:image/" +:+ subtype +:+ "," +:+ payload)
      with (("data:image/" +:+ subtype) +:+ "," +:+ payload).
    rewrite split_on_first, split_on_comma_free; done. }
  rewrite Hsplit. cbn [lookup list_lookup].
  by destruct (String.eqb_spec payload "").
Qed.

Lemma data_urls_reach_the_describer_witness :
  start_image v8 3 1 (JStr (data_url ("image/" +:+ "jpeg;base64") "/9j/4AAQSkZJRg=="))
  = InFlight (3 + 1) "/9j/4AAQSkZJRg==".
Proof.
  apply (data_urls_reach_the_describer v8 3 1 "jpeg;base64" "/9j/4AAQSkZJRg==");
    [reflexivity | reflexivity | discriminate].
Defined.

(** *** Records are never empty *)

(** Whatever the image and whatever the describer does, the record written
    for an image is a non-empty string. *)
Theorem records_are_never_empty
    (js : Engine) (describe : Describer) (n : nat) (imageData : json) :
  frame_result js describe n imageData <> "".
Proof.
  unfold frame_result, resolve, settle_call.
  destruct (start_image js 0 n imageData) as [v | index b] eqn:Hst.
  - unfold start_image in Hst.
    repeat case_match; simplify_eq;
      unfold invalid_format, extract_failed, error_analyzing; discriminate.
  - destruct (describe index b); [by apply CaptureMoreFacts.or_default_nonempty |].
    unfold error_analyzing. discriminate.
Qed.

(** *** The hook's request and the route together *)

(** A batch of screenshots posted by [analyzeScreenshots] and run by the
    route to its response, under any schedule and any describer, appends one
    record per screenshot to [analyses], in the order of the screenshots, and
    leaves [error] as it was. *)
Theorem batch_round_trip
    (js : Engine) (describe : Describer) (screenshots analyses : list string)
    (error : option string) (es : list Event) (h : Handler) (resp : Response) :
  screenshots <> [] ->
  exec js describe (POST_enter js (Parsed (request_body screenshots))) es = Some h ->
  phase h = Responded resp ->
  analyzeScreenshots (BatchAnswer resp) screenshots analyses error
  = (analyses ++ imap (frame_result js describe) (JStr <$> screenshots), error)
  /\ length (fst (analyzeScreenshots (BatchAnswer resp) screenshots analyses error))
     = length analyses + length screenshots.
Proof.
  intros Hne He Hr.
  assert (Hf : get_field "images" (request_body screenshots)
               = Some (JArr (JStr <$> screenshots))) by done.
  assert (Hne' : JStr <$> screenshots <> []) by (by destruct screenshots).
  rewrite (enter_with_images js _ _ Hf Hne') in He.
  rewrite (completed_in_order js describe _ es h resp He Hr).
  assert (Heq : analyzeScreenshots
                  (BatchAnswer (in_order js describe (JStr <$> screenshots)))
                  screenshots analyses error
                = (analyses ++ imap (frame_result js describe) (JStr <$> screenshots),
                   error)) by (by destruct screenshots).
  rewrite Heq. split; [done |].
  cbn [fst]. by rewrite length_app, length_imap, length_fmap.
Qed.

Lemma batch_round_trip_witness :
  length (fst (analyzeScreenshots
                 (BatchAnswer (in_order v8 never_failing
                                 (JStr <$> ["data:image/jpeg;base64,AAAA"; "x"])))
                 ["data:image/jpeg;base64,AAAA"; "x"] ["earlier"] None))
  = length ["earlier"] + length ["data:image/jpeg;base64,AAAA"; "x"].
Proof.
  apply (batch_round_trip v8 never_failing ["data:image/jpeg;base64,AAAA"; "x"]
           ["earlier"] None
           [Continue; Settles 0; Continue; Continue]
           (after v8 never_failing
              (POST_enter v8 (Parsed (request_body ["data:image/jpeg;base64,AAAA"; "x"])))
              [Continue; Settles 0; Continue; Continue])
           (in_order v8 never_failing (JStr <$> ["data:image/jpeg;base64,AAAA"; "x"])));
    [discriminate | vm_compute; reflexivity | vm_compute; reflexivity].
Defined.

End BatchMoreFacts.

(** ** Properties of the single-image route and the stand-alone dialog *)

Module SingleFacts.
Import Js Summarize SingleRoute.
Import Batch (json, JNull, JBool, JNum, JStr, JArr, JObj, Body, Unparsable, Parsed,
              get_field, truthy, split_on, Engine, start_image, Promise, Settled,
              InFlight).

(** The single-image route is the stricter of the two: whenever it calls the
    model for an [imageData], that value is a string of at least 1000
    characters and the batch route would send the same payload to its
    describer.  In every other case the single-image route calls nothing. *)
Theorem single_route_calls_what_batch_calls
    (js : Engine) (model : string -> ModelOutcome) (body imageData : json) (i k : nat) :
  get_field "imageData" body = Some imageData ->
  snd (SingleRoute.POST js model (Parsed body)) = []
  \/ exists s base64Image,
       imageData = JStr s /\ 1000 <= String.length s
       /\ snd (SingleRoute.POST js model (Parsed body)) = [base64Image]
       /\ start_image js i k imageData = InFlight (i + k) base64Image.
Proof.
  intros Hf. unfold SingleRoute.POST.
  destruct body as [| b | n | str | items | fields]; try done.
  rewrite Hf. unfold start_image.
  destruct (truthy imageData) eqn:Ht; cbn [negb]; [| by left].
  destruct imageData as [| b | n | s | items | fields']; try (by left).
  destruct (String.prefix "data:image/" s) eqn:Hp; cbn [negb]; [| by left].
  destruct (Nat.ltb_spec (String.length s) 1000) as [Hshort | Hlong]; [by left |].
  destruct (split_on "," s !! 1) as [base64Image |] eqn:Hs; [| by left].
  destruct (String.eqb base64Image "") eqn:He; [by left |].
  right. exists s, base64Image.
  split; [done |]. split; [done |].
  split; [| done]. by destruct (model base64Image).
Qed.

Lemma single_route_calls_what_batch_calls_witness :
  snd (SingleRoute.POST Batch.v8 (fun _ => Resolves (Some "a page"))
         (Parsed (request_body long_image))) = []
  \/ exists s base64Image,
       JStr long_image = JStr s /\ 1000 <= String.length s
       /\ snd (SingleRoute.POST Batch.v8 (fun _ => Resolves (Some "a page"))
                 (Parsed (request_body long_image))) = [base64Image]
       /\ start_image Batch.v8 0 0 (JStr long_image) = InFlight (0 + 0) base64Image.
Proof.
  apply (single_route_calls_what_batch_calls Batch.v8 (fun _ => Resolves (Some "a page"))
           (request_body long_image) (JStr long_image) 0 0).
  reflexivity.
Defined.

(** *** What the dialog shows is never empty *)

Lemma analyzeScreenshot_nonempty (reply : AnalysisReply) (frameNumber : nat) :
  analyzeScreenshot reply frameNumber <> "".
Proof.
  unfold analyzeScreenshot. destruct reply as [e | status analysis]; [done |].
  destruct (status_ok status); [| done].
  by apply CaptureMoreFacts.or_default_nonempty.
Qed.

Lemma summarizeAnalyses_nonempty (allAnalyses : list string) (reply : SummarizeReply) :
  Forall (fun a => a <> "") allAnalyses ->
  Legacy.summarizeAnalyses allAnalyses reply <> "".
Proof.
  intros Hall. unfold Legacy.summarizeAnalyses.
  destruct allAnalyses as [| a [| b rest]]; [done | by inversion Hall |].
  destruct reply as [e | status summary]; [done |].
  destruct (status_ok status); [| done].
  by apply CaptureMoreFacts.or_default_nonempty.
Qed.

(** In the stand-alone dialog every per-frame record is a non-empty string,
    whatever the single-image request came back with, and so is the summary
    made of any number of such records, whatever the summarize request came
    back with. *)
Theorem dialog_never_shows_nothing
    (frames : list (AnalysisReply * nat)) (reply : SummarizeReply) :
  Forall (fun a => a <> "") ((fun f => analyzeScreenshot f.1 f.2) <$> frames)
  /\ Legacy.summarizeAnalyses ((fun f => analyzeScreenshot f.1 f.2) <$> frames) reply
     <> "".
Proof.
  assert (Hall : Forall (fun a => a <> "")
                   ((fun f => analyzeScreenshot f.1 f.2) <$> frames)).
  { apply Forall_fmap, Forall_forall. intros [r n] _. apply analyzeScreenshot_nonempty. }
  split; [done | by apply summarizeAnalyses_nonempty].
Qed.

(** *** The fallback of the dialog keeps the texts *)

Lemma string_app_assoc (a b c : string) : (a +:+ b) +:+ c = a +:+ b +:+ c.
Proof.
  induction a as [| x a IH]; [done |].
  change (String x ((a +:+ b) +:+ c) = String x (a +:+ b +:+ c)). by rewrite IH.
Qed.

Lemma string_app_empty (a : string) : a +:+ "" = a.
Proof.
  induction a as [| x a IH]; [done |].
  change (String x (a +:+ "") = String x a). by rewrite IH.
Qed.

Lemma occurs_in_after (a s before : string) :
  occurs_in a s -> occurs_in a (before +:+ s).
Proof.
  intros (b & c & ->). exists (before +:+ b), c. by rewrite string_app_assoc.
Qed.

Lemma occurs_in_joined (sep a : string) (texts : list string) :
  a ∈ texts -> occurs_in a (String.concat sep texts).
Proof.
  induction texts as [| x texts IH]; intros Hin; [by apply elem_of_nil in Hin |].
  destruct texts as [| y texts].
  - apply list_elem_of_singleton in Hin as ->. exists "", "". cbn [String.concat].
    change ("" +:+ x +:+ "") with (x +:+ ""). by rewrite string_app_empty.
  - change (String.concat sep (x :: y :: texts))
      with (x +:+ sep +:+ String.concat sep (y :: texts)).
    apply elem_of_cons in Hin as [-> | Hin].
    + by exists "", (sep +:+ String.concat sep (y :: texts)).
    + apply occurs_in_after, occurs_in_after, IH, Hin.
Qed.

(** When the summarize request of the stand-alone dialog fails on two or
    more records, every one of the records occurs in the text returned. *)
Theorem dialog_fallback_keeps_every_text
    (allAnalyses : list string) (status : nat) (a : string) :
  2 <= length allAnalyses -> status_ok status = false -> a ∈ allAnalyses ->
  occurs_in a (Legacy.summarizeAnalyses allAnalyses (Reply status None))
  /\ forall e, occurs_in a (Legacy.summarizeAnalyses allAnalyses (FetchRejects e)).
Proof.
  intros Hlen Hst Hin.
  assert (Hfb : occurs_in a (Legacy.fallback allAnalyses)).
  { unfold Legacy.fallback. do 3 apply occurs_in_after. by apply occurs_in_joined. }
  unfold Legacy.summarizeAnalyses.
  destruct allAnalyses as [| x [| y rest]]; [simpl in Hlen; lia | simpl in Hlen; lia |].
  by rewrite Hst.
Qed.

Lemma dialog_fallback_keeps_every_text_witness :
  occurs_in "B" (Legacy.summarizeAnalyses ["A"; "B"; "C"] (Reply 500 None))
  /\ forall e, occurs_in "B" (Legacy.summarizeAnalyses ["A"; "B"; "C"] (FetchRejects e)).
Proof.
  apply (dialog_fallback_keeps_every_text ["A"; "B"; "C"] 500 "B");
    [simpl; lia | reflexivity | apply list_elem_of_lookup; by exists 1].
Defined.

(** *** A frame through the single-image route *)

Lemma default_twice (content : option string) (dflt : string) :
  or_default (Some (or_default content "")) dflt = or_default content dflt.
Proof.
  unfold or_default. destruct content as [c |]; [| done].
  destruct (String.eqb_spec c "") as [-> | Hne]; [done |].
  by destruct (String.eqb_spec c "").
Qed.

(** The dialog's per-frame record, with the single-image route answering
    the request: if the route calls the model, the record is the model's
    text, the no-analysis default if that text is missing or empty, or the
    status-500 failure note if the model throws; if the route calls nothing,
    the record is a failure note with the status of the refusal. *)
Theorem frame_through_single_route
    (js : Engine) (model : string -> ModelOutcome) (req : Body)
    (frameNumber : nat) (base64Image : string) :
  (snd (SingleRoute.POST js model req) = [base64Image] ->
   analyzeScreenshot (reply_of (fst (SingleRoute.POST js model req))) frameNumber
   = match model base64Image with
     | Resolves content => or_default content "No analysis available"
     | Rejects _ =>
       "Failed to analyze frame " +:+ pretty frameNumber
       +:+ ": API request failed with status " +:+ pretty 500
     end)
  /\ (snd (SingleRoute.POST js model req) = [] ->
      exists status, (status = 400 \/ status = 500)
        /\ analyzeScreenshot (reply_of (fst (SingleRoute.POST js model req))) frameNumber
           = "Failed to analyze frame " +:+ pretty frameNumber
             +:+ ": API request failed with status " +:+ pretty status).
Proof.
  unfold SingleRoute.POST.
  assert (Hbad : forall error,
            analyzeScreenshot (reply_of (fst (bad_request error))) frameNumber
            = "Failed to analyze frame " +:+ pretty frameNumber
              +:+ ": API request failed with status " +:+ pretty 400) by done.
  assert (Hsrv : forall e calls,
            analyzeScreenshot (reply_of (fst (server_error e calls))) frameNumber
            = "Failed to analyze frame " +:+ pretty frameNumber
              +:+ ": API request failed with status " +:+ pretty 500) by done.
  destruct req as [e | body].
  { split; [done |]. intros _. exists 500. by split; [right |]. }
  destruct body as [| b | n | str | items | fields];
    try (split; [done |]; intros _; (exists 400 + exists 500);
         by split; [(left + right) |]).
  destruct (get_field "imageData" (JObj fields)) as [imageData |];
    [| split; [done |]; intros _; exists 400; by split; [left |]].
  destruct (truthy imageData); cbn [negb];
    [| split; [done |]; intros _; exists 400; by split; [left |]].
  destruct imageData as [| b | n | s | items | fields'];
    try (split; [done |]; intros _; exists 500; by split; [right |]).
  destruct (String.prefix "data:image/" s); cbn [negb];
    [| split; [done |]; intros _; exists 400; by split; [left |]].
  destruct (String.length s <? 1000)%nat;
    [split; [done |]; intros _; exists 400; by split; [left |] |].
  destruct (split_on "," s !! 1) as [b64 |];
    [| split; [done |]; intros _; exists 400; by split; [left |]].
  destruct (String.eqb b64 "");
    [split; [done |]; intros _; exists 400; by split; [left |] |].
  destruct (model b64) as [content | e] eqn:Hm.
  - split; [| done]. cbn [snd fst]. intros [= <-]. rewrite Hm.
    unfold reply_of, analyzeScreenshot. cbn. apply default_twice.
  - split; [| done]. cbn [snd]. intros [= <-]. by rewrite Hm, Hsrv.
Qed.

Lemma frame_through_single_route_witness :
  analyzeScreenshot
    (reply_of (fst (SingleRoute.POST Batch.v8 (fun _ => Resolves None)
                      (Parsed (request_body long_image))))) 7
  = "No analysis available"
  /\ exists status, (status = 400 \/ status = 500)
       /\ analyzeScreenshot
            (reply_of (fst (SingleRoute.POST Batch.v8 (fun _ => Resolves None)
                              (Parsed (request_body "data:image/png;base64,AAAA"))))) 7
          = "Failed to analyze frame " +:+ pretty 7
            +:+ ": API request failed with status " +:+ pretty status.
Proof.
  split.
  - apply (frame_through_single_route Batch.v8 (fun _ => Resolves None)
             (Parsed (request_body long_image)) 7
             (String.concat "" (replicate 1000 "A"))).
    vm_compute. reflexivity.
  - apply (frame_through_single_route Batch.v8 (fun _ => Resolves None)
             (Parsed (request_body "data:image/png;base64,AAAA")) 7 "").
    reflexivity.
Defined.

End SingleFacts.
